(** * A TCP echo server: the connection handler and the accept loop

    Shallow embedding of [server.c] (a C++17 POSIX program).  The program
    is a sequence of system calls whose results come from the operating
    system.  A run is therefore modelled by

    - a _script_ for every kind of call the code blocks on: the list of
      results the calls return, in call order ([recv] and [send] for the
      handler, [accept] for the listener); and
    - the _trace_ the code produces: the list of calls it makes, with
      their arguments and results, interleaved with the lines it logs.

    Every loop iteration makes exactly one call, so the loops are
    structural recursions on their script.  When a script runs out the
    code is inside a call that has not returned: the trace ends with
    that call, its result missing.

    [ssize_t] and [int] values are integers of [Z]; under the contract of
    the calls ([kernel_ok]) all of them stay between -1 and 4096.

    [main] hands every accepted connection to a detached thread; the
    trace of [main] records the hand-over ([EvSpawn]) and each thread is
    a run of [handle_client] of its own.  Two handlers share nothing but
    the log. *)

From Stdlib Require Import ZArith List String Ascii Bool Lia DecimalString.
From Stdlib.Strings Require Import Byte.
Import ListNotations.

Local Open Scope string_scope.
Local Open Scope list_scope.
Local Open Scope Z_scope.

(** [operator+] on [std::string]. *)
Infix "+:+" := String.append (at level 60, right associativity).

(** ** The C and C++ library functions the program calls *)

(** [strerror], [inet_ntop] (for [AF_INET], applied to [s_addr]),
    [ntohs], [htons] and [std::stoi] belong to the platform.  [stoi]
    answers [None] where the C++ function throws. *)
Class Platform := {
  strerror : Z -> string;
  inet_ntop : Z -> string;
  ntohs : Z -> Z;
  htons : Z -> Z;
  stoi : string -> option Z
}.

(** [std::to_string] on an [int]: the decimal numeral, with a sign. *)
Definition to_string (z : Z) : string := NilZero.string_of_int (Z.to_int z).

(** [errno] value of an interrupted call, from <cerrno> on Linux. *)
Definition EINTR : Z := 4.

(** [struct sockaddr_in], the two fields the program reads; both are
    kept as the kernel stores them, in network byte order. *)
Record sockaddr_in := { sin_addr : Z; sin_port : Z }.

(** ** Results of the system calls *)

(** Result of a call that returns a number: the value and the [errno]
    found after it.  In a trace, a call of [recv], [send] or [accept]
    carries [Some] result once it has returned and [None] while it has
    not. *)
Record sysret := { ret : Z; err : Z }.

(** Result of [recv]: the value [n], the bytes the kernel stores in the
    buffer, and [errno]. *)
Record recv_ret := { rv_n : Z; rv_data : list byte; rv_errno : Z }.

(** Result of [accept]: descriptor, peer address, [errno], and whether
    the [std::thread] constructor that follows succeeds. *)
Record accept_ret := {
  ac_fd : Z; ac_addr : sockaddr_in; ac_errno : Z; ac_thread : bool
}.

(** ** Traces *)

Inductive event :=
| EvLog (s : string)                             (* log(s) *)
| EvCerr (s : string)                            (* std::cerr << s *)
| EvRecv (fd len : Z) (r : option recv_ret)      (* recv(fd, buf, len, 0) *)
| EvSend (fd : Z) (data : list byte) (r : option sysret)
                                                 (* send(fd, p, |data|, 0) *)
| EvClose (fd : Z)                               (* close(fd) *)
| EvSocket (r : sysret)
| EvSetsockopt (fd : Z) (r : sysret)
| EvBind (fd port : Z) (r : sysret)
| EvListen (fd : Z) (r : sysret)
| EvAccept (fd : Z) (r : option accept_ret)
| EvSpawn (fd : Z) (addr : sockaddr_in)          (* detached handle_client thread *)
| EvThreadFailed.                                (* std::thread threw *)

Definition trace := list event.

(** ** [log] *)

(** [struct tm] as [std::localtime] fills it. *)
Record tm := {
  tm_year : Z; tm_mon : Z; tm_mday : Z; tm_hour : Z; tm_min : Z; tm_sec : Z
}.

Definition digit (d : Z) : ascii := ascii_of_nat (48 + Z.to_nat (d mod 10)).

Definition pad2 (z : Z) : string :=
  String (digit (z / 10)) (String (digit z) "").

(** [%Y] prints the year in full; four digits for the years 1000-9999. *)
Definition fmt_Y (y : Z) : string := to_string y.

(** [std::put_time(t, "%F %T")]: [%F] is [%Y-%m-%d], [%T] is
    [%H:%M:%S]. *)
Definition put_time_F_T (t : tm) : string :=
  fmt_Y (tm_year t + 1900) +:+ "-" +:+ pad2 (tm_mon t + 1) +:+ "-" +:+ pad2 (tm_mday t)
  +:+ " " +:+ pad2 (tm_hour t) +:+ ":" +:+ pad2 (tm_min t) +:+ ":" +:+ pad2 (tm_sec t).

Definition newline : string := String (ascii_of_nat 10) "".

(** The line [log(s)] writes on [std::cout] when the clock reads [now]. *)
Definition log (now : tm) (s : string) : string :=
  "[" +:+ put_time_F_T now +:+ "] " +:+ s +:+ newline.

Inductive stream := Cout | Cerr.

(** What an event writes, and where, when the clock reads [now]. *)
Definition written (now : tm) (e : event) : option (stream * string) :=
  match e with
  | EvLog s => Some (Cout, log now s)
  | EvCerr s => Some (Cerr, s)
  | _ => None
  end.

(** ** [handle_client] *)

Definition BUF_SZ : Z := 4096.

(** [len] bytes of the buffer from offset [off]: what a call reads
    through the pointer [buf.data() + off].  The range lies inside the
    buffer when [0 <= off] and [off + len <= length buf]; the code reads
    no other range when [recv] keeps its contract ([kernel_ok]), and the
    properties that speak of the bytes of a [send] assume it. *)
Definition slice (buf : list byte) (off len : Z) : list byte :=
  firstn (Z.to_nat len) (skipn (Z.to_nat off) buf).

(** The buffer after [recv(fd, buf.data(), len, 0)] stored [data]: the
    kernel writes at most [len] bytes, from the start of the buffer. *)
Definition store (buf : list byte) (len : Z) (data : list byte) : list byte :=
  let d := firstn (Z.to_nat len) data in
  d ++ skipn (List.length d) buf.

(** How the inner [while (sent < n)] loop is left. *)
Inductive send_exit :=
| SendDone (sent : Z)       (* the condition [sent < n] became false *)
| SendFailed                (* [return] after an error of send *)
| SendPending (sent : Z).   (* inside a send that has not returned *)

(** How [handle_client] is left. *)
Inductive exit_path :=
| PeerClosed                (* [break] after recv returned 0 *)
| RecvError                 (* [break] after an error of recv *)
| SendError                 (* [return] after an error of send *)
| Blocked.                  (* inside a call that has not returned *)

Section Handler.
Context {P : Platform}.

(** Lines 41-49: [while (sent < n) { s = send(...); ... sent += s; }].
    [sent += s] is the sum of [Z]: it is the sum of [ssize_t] when
    [s <= n - sent], which is the contract of [send] ([kernel_ok]); the
    properties that depend on the offset assume it. *)
Fixpoint send_loop (client_fd : Z) (buf : list byte) (n sent : Z)
    (ss : list sysret) : trace * send_exit * list sysret :=
  if sent <? n then
    match ss with
    | [] => ([EvSend client_fd (slice buf sent (n - sent)) None], SendPending sent, [])
    | r :: ss' =>
        let ev := EvSend client_fd (slice buf sent (n - sent)) (Some r) in
        let s := ret r in
        if s <? 0 then
          ([ev; EvLog ("Error in send(): " +:+ strerror (err r)); EvClose client_fd],
           SendFailed, ss')
        else
          let '(t, x, rest) := send_loop client_fd buf n (sent + s) ss' in
          (ev :: t, x, rest)
    end
  else ([], SendDone sent, ss).

(** Lines 36-60: the [while (true)] loop.  [PeerClosed] and [RecvError]
    leave it by [break]; the send error leaves the whole function. *)
Fixpoint handle_loop (client_fd : Z) (addr_str : string) (client_port : Z)
    (buf : list byte) (rs : list recv_ret) (ss : list sysret)
    : trace * exit_path :=
  match rs with
  | [] => ([EvRecv client_fd BUF_SZ None], Blocked)
  | r :: rs' =>
      let ev := EvRecv client_fd BUF_SZ (Some r) in
      let n := rv_n r in
      if 0 <? n then
        let buf' := store buf BUF_SZ (rv_data r) in
        match send_loop client_fd buf' n 0 ss with
        | (t, SendDone _, ss') =>
            let '(t', x) := handle_loop client_fd addr_str client_port buf' rs' ss' in
            (ev :: t ++ t', x)
        | (t, SendFailed, _) => (ev :: t, SendError)
        | (t, SendPending _, _) => (ev :: t, Blocked)
        end
      else if n =? 0 then
        ([ev; EvLog ("Client disconnected: " +:+ addr_str +:+ ":" +:+ to_string client_port)],
         PeerClosed)
      else if rv_errno r =? EINTR then
        let '(t', x) := handle_loop client_fd addr_str client_port buf rs' ss in
        (ev :: t', x)
      else
        ([ev; EvLog ("Error in recv(): " +:+ strerror (rv_errno r))], RecvError)
  end.

(** The statement after the loop, line 62: reached by [break] only. *)
Definition after_loop (client_fd : Z) (x : exit_path) : trace :=
  match x with
  | PeerClosed | RecvError => [EvClose client_fd]
  | SendError | Blocked => []
  end.

Definition handle_client (client_fd : Z) (client_addr : sockaddr_in)
    (rs : list recv_ret) (ss : list sysret) : trace * exit_path :=
  let addr_str := inet_ntop (sin_addr client_addr) in
  let client_port := ntohs (sin_port client_addr) in
  let buf := repeat x00 (Z.to_nat BUF_SZ) in
  let '(t, x) := handle_loop client_fd addr_str client_port buf rs ss in
  (EvLog ("Connected: " +:+ addr_str +:+ ":" +:+ to_string client_port)
     :: t ++ after_loop client_fd x, x).

End Handler.

(** ** [main] *)

(** Results of the four calls that set the listening socket up. *)
Record startup := {
  st_socket : sysret; st_setsockopt : sysret; st_bind : sysret; st_listen : sysret
}.

(** How the accept loop is left. *)
Inductive accept_exit :=
| AcceptBroke               (* [break] after an error of accept *)
| AcceptThrew               (* the thread constructor threw *)
| AcceptPending.            (* inside an accept that has not returned *)

(** How the process ends. *)
Inductive status :=
| Exited (code : Z)         (* [return code] from main *)
| Terminated                (* std::terminate after an exception nobody catches *)
| Accepting.                (* still in the accept loop *)

Section Listener.
Context {P : Platform}.

(** Lines 103-116: [while (true) { client_fd = accept(...); ... }] *)
Fixpoint accept_loop (listen_fd : Z) (acs : list accept_ret)
    : trace * accept_exit :=
  match acs with
  | [] => ([EvAccept listen_fd None], AcceptPending)
  | r :: acs' =>
      let ev := EvAccept listen_fd (Some r) in
      let client_fd := ac_fd r in
      if client_fd <? 0 then
        if ac_errno r =? EINTR then
          let '(t, x) := accept_loop listen_fd acs' in (ev :: t, x)
        else
          ([ev; EvCerr ("accept() failed: " +:+ strerror (ac_errno r) +:+ newline)],
           AcceptBroke)
      else if ac_thread r then
        let '(t, x) := accept_loop listen_fd acs' in
        (ev :: EvSpawn client_fd (ac_addr r) :: t, x)
      else ([ev; EvThreadFailed], AcceptThrew)
  end.

(** Lines 66-67: the port, 8080 unless [argv[1]] is there. *)
Definition parse_port (argv : list string) : option Z :=
  match argv with
  | _ :: a :: _ => stoi a
  | _ => Some 8080
  end.

Definition main (argv : list string) (boot : startup) (acs : list accept_ret)
    : trace * status :=
  match parse_port argv with
  | None => ([], Terminated)
  | Some port =>
      let listen_fd := ret (st_socket boot) in
      let e1 := EvSocket (st_socket boot) in
      if listen_fd <? 0 then
        ([e1; EvCerr ("socket() failed: " +:+ strerror (err (st_socket boot)) +:+ newline)],
         Exited 1)
      else
      let e2 := EvSetsockopt listen_fd (st_setsockopt boot) in
      if ret (st_setsockopt boot) <? 0 then
        ([e1; e2;
          EvCerr ("setsockopt() failed: " +:+ strerror (err (st_setsockopt boot)) +:+ newline);
          EvClose listen_fd], Exited 1)
      else
      let e3 := EvBind listen_fd (htons port) (st_bind boot) in
      if ret (st_bind boot) <? 0 then
        ([e1; e2; e3;
          EvCerr ("bind() failed: " +:+ strerror (err (st_bind boot)) +:+ newline);
          EvClose listen_fd], Exited 1)
      else
      let e4 := EvListen listen_fd (st_listen boot) in
      if ret (st_listen boot) <? 0 then
        ([e1; e2; e3; e4;
          EvCerr ("listen() failed: " +:+ strerror (err (st_listen boot)) +:+ newline);
          EvClose listen_fd], Exited 1)
      else
      let e5 := EvLog ("Listening on port " +:+ to_string port) in
      match accept_loop listen_fd acs with
      | (t, AcceptBroke) => (e1 :: e2 :: e3 :: e4 :: e5 :: t ++ [EvClose listen_fd], Exited 0)
      | (t, AcceptThrew) => (e1 :: e2 :: e3 :: e4 :: e5 :: t, Terminated)
      | (t, AcceptPending) => (e1 :: e2 :: e3 :: e4 :: e5 :: t, Accepting)
      end
  end.

End Listener.

(** ** A concrete platform: Linux on a little-endian machine *)

Module Linux.

(** A few rows of the table behind [strerror] in glibc. *)
Definition strerror (e : Z) : string :=
  if e =? 4 then "Interrupted system call"
  else if e =? 9 then "Bad file descriptor"
  else if e =? 24 then "Too many open files"
  else if e =? 32 then "Broken pipe"
  else if e =? 98 then "Address already in use"
  else if e =? 104 then "Connection reset by peer"
  else "Unknown error " +:+ to_string e.

(** The two octets of a 16-bit value, exchanged. *)
Definition swap16 (x : Z) : Z :=
  Z.lor (Z.shiftl (Z.land x 255) 8) (Z.land (Z.shiftr x 8) 255).

(** Dotted quad of [s_addr]; the first octet is the low one. *)
Definition inet_ntop (a : Z) : string :=
  to_string (Z.land a 255) +:+ "." +:+
  to_string (Z.land (Z.shiftr a 8) 255) +:+ "." +:+
  to_string (Z.land (Z.shiftr a 16) 255) +:+ "." +:+
  to_string (Z.land (Z.shiftr a 24) 255).

Fixpoint digits (s : string) (acc : Z) : option Z :=
  match s with
  | EmptyString => Some acc
  | String c s' =>
      let d := Z.of_nat (nat_of_ascii c) - 48 in
      if (0 <=? d) && (d <=? 9) then digits s' (10 * acc + d) else None
  end.

(** [std::stoi] on the numerals made of digits only that fit an [int];
    on other arguments this platform lets it throw. *)
Definition stoi (s : string) : option Z :=
  match s with
  | EmptyString => None
  | _ => match digits s 0 with
         | Some z => if z <? 2147483648 then Some z else None
         | None => None
         end
  end.

Definition platform : Platform :=
  Build_Platform strerror inet_ntop swap16 swap16 stoi.

End Linux.

(** ** Reading traces *)

(** The bytes a returned [recv] delivered, and the bytes a returned
    [send] took: the first [n] of those it was offered. *)
Definition received (e : event) : list byte :=
  match e with
  | EvRecv _ _ (Some r) =>
      if 0 <? rv_n r then firstn (Z.to_nat (rv_n r)) (rv_data r) else []
  | _ => []
  end.

Definition transmitted (e : event) : list byte :=
  match e with
  | EvSend _ d (Some r) => firstn (Z.to_nat (ret r)) d
  | _ => []
  end.

Definition bytes_received (t : trace) : list byte := flat_map received t.
Definition bytes_written (t : trace) : list byte := flat_map transmitted t.

(** The contract of the two calls: [recv] returns at most the length it
    was given, with that many bytes stored; [send] returns at most the
    length it was given. *)
Definition call_ok (e : event) : bool :=
  match e with
  | EvRecv _ len (Some r) =>
      (rv_n r <=? 0)
      || ((rv_n r =? Z.of_nat (List.length (rv_data r))) && (rv_n r <=? len))
  | EvSend _ d (Some r) => ret r <=? Z.of_nat (List.length d)
  | _ => true
  end.

Definition kernel_ok (t : trace) : bool := forallb call_ok t.

Definition is_close (e : event) : bool :=
  match e with EvClose _ => true | _ => false end.

Definition close_count (t : trace) : nat := List.length (filter is_close t).

Definition is_send (e : event) : bool :=
  match e with EvSend _ _ _ => true | _ => false end.

Definition send_count (t : trace) : nat := List.length (filter is_send t).

(** A property [Q e post] of every event [e] of a trace together with
    the events [post] that follow it. *)
Fixpoint each_suffix (Q : event -> trace -> Prop) (t : trace) : Prop :=
  match t with
  | [] => True
  | e :: t' => Q e t' /\ each_suffix Q t'
  end.

(** [needle] occurs in [s]. *)
Fixpoint includes (needle s : string) : bool :=
  String.prefix needle s ||
  match s with
  | EmptyString => false
  | String _ s' => includes needle s'
  end.

(** ** The echo discipline, as the specification words it

    [echo_discipline pending t]: the trace [t] is allowed when [pending]
    holds the bytes of the current chunk that are not sent yet.  A send
    offers exactly the pending bytes and removes those it took; while
    bytes are pending nothing but a send may happen and the trace may
    not stop; a failed send is followed by its log line and the close,
    and nothing else. *)
Section Discipline.
Context {P : Platform}.

Fixpoint echo_discipline (pending : list byte) (t : trace) : Prop :=
  match t with
  | [] => pending = []
  | EvSend fd d r :: t' =>
      pending <> [] /\ d = pending /\
      match r with
      | None => t' = []
      | Some r =>
          if ret r <? 0
          then t' = [EvLog ("Error in send(): " +:+ strerror (err r)); EvClose fd]
          else echo_discipline (skipn (Z.to_nat (ret r)) pending) t'
      end
  | e :: t' => pending = [] /\ echo_discipline (received e) t'
  end.

End Discipline.

(** ** The shape of a log line, as the specification words it *)

(** One position of a pattern: a decimal digit, or a given character. *)
Inductive pat := PDigit | PChar (c : ascii).

Definition is_digit (c : ascii) : bool :=
  (48 <=? nat_of_ascii c)%nat && (nat_of_ascii c <=? 57)%nat.

(** [s] begins with characters that fit [p], one by one. *)
Fixpoint starts_with (p : list pat) (s : string) : bool :=
  match p, s with
  | [], _ => true
  | _ :: _, EmptyString => false
  | PDigit :: p', String c s' => is_digit c && starts_with p' s'
  | PChar c0 :: p', String c s' => Ascii.eqb c0 c && starts_with p' s'
  end.

(** [YYYY-MM-DD HH:MM:SS] *)
Definition stamp_pattern : list pat :=
  [PDigit; PDigit; PDigit; PDigit; PChar "-"; PDigit; PDigit; PChar "-";
   PDigit; PDigit; PChar " "; PDigit; PDigit; PChar ":"; PDigit; PDigit;
   PChar ":"; PDigit; PDigit].

(** A line of the form [[YYYY-MM-DD HH:MM:SS] <message>]. *)
Definition is_log_line (line : string) : bool :=
  starts_with (PChar "[" :: stamp_pattern ++ [PChar "]"; PChar " "]) line.

(** The values [std::localtime] gives, for the years 1000 to 9999. *)
Definition tm_ok (t : tm) : bool :=
  (1000 <=? tm_year t + 1900) && (tm_year t + 1900 <=? 9999)
  && (0 <=? tm_mon t) && (tm_mon t <=? 11)
  && (1 <=? tm_mday t) && (tm_mday t <=? 31)
  && (0 <=? tm_hour t) && (tm_hour t <=? 23)
  && (0 <=? tm_min t) && (tm_min t <=? 59)
  && (0 <=? tm_sec t) && (tm_sec t <=? 60).

(** Exactly four decimal digits. *)
Definition four_digits (s : string) : bool :=
  starts_with [PDigit; PDigit; PDigit; PDigit] s && (String.length s =? 4)%nat.

(** Some event of [t] writes a line of that form which includes [desc]. *)
Definition reported_as_log_line (now : tm) (desc : string) (t : trace) : bool :=
  existsb (fun e =>
             match written now e with
             | Some (_, line) => is_log_line line && includes desc line
             | None => false
             end) t.

(** ** Reading the traces of [main] *)

Definition is_accept (e : event) : bool :=
  match e with EvAccept _ _ => true | _ => false end.

(** One of the four calls that set the socket up failed. *)
Definition startup_failed (boot : startup) : bool :=
  (ret (st_socket boot) <? 0) || (ret (st_setsockopt boot) <? 0)
  || (ret (st_bind boot) <? 0) || (ret (st_listen boot) <? 0).

(** ** Sample inputs *)

Definition bytes_of (s : string) : list byte := list_byte_of_string s.

Definition chunk (s : string) : recv_ret :=
  {| rv_n := Z.of_nat (String.length s); rv_data := bytes_of s; rv_errno := 0 |}.

Definition recv_eof : recv_ret := {| rv_n := 0; rv_data := []; rv_errno := 0 |}.
Definition recv_fail (e : Z) : recv_ret := {| rv_n := -1; rv_data := []; rv_errno := e |}.
Definition took (k : Z) : sysret := {| ret := k; err := 0 |}.
Definition failed (e : Z) : sysret := {| ret := -1; err := e |}.

(** A [recv] that delivers the chunk [c], and a [send] that takes a
    chunk whole. *)
Definition data_chunk (c : list byte) : recv_ret :=
  {| rv_n := Z.of_nat (List.length c); rv_data := c; rv_errno := 0 |}.
Definition whole (c : list byte) : sysret := took (Z.of_nat (List.length c)).

Definition peer : sockaddr_in := {| sin_addr := 16777343; sin_port := 34835 |}.

Definition boot_ok : startup :=
  {| st_socket := took 3; st_setsockopt := took 0; st_bind := took 0; st_listen := took 0 |}.

Definition accepted (fd : Z) : accept_ret :=
  {| ac_fd := fd; ac_addr := peer; ac_errno := 0; ac_thread := true |}.
Definition accept_fail (e : Z) : accept_ret :=
  {| ac_fd := -1; ac_addr := peer; ac_errno := e; ac_thread := true |}.

(** A run of two chunks, the first sent in two parts, with one
    interrupted [recv] in between, ended by the peer. *)
Definition hello_rs : list recv_ret :=
  [chunk "hello"; recv_fail EINTR; chunk "world"; recv_eof].
Definition hello_ss : list sysret := [took 2; took 3; took 5].
Definition hello_run : trace * exit_path :=
  @handle_client Linux.platform 7 peer hello_rs hello_ss.

(** A run ended by a [send] interrupted by a signal. *)
Definition eintr_run : trace * exit_path :=
  @handle_client Linux.platform 7 peer [chunk "hello"; recv_eof] [took 2; failed EINTR].

(** A run ended by a reset of the connection. *)
Definition reset_run : trace * exit_path :=
  @handle_client Linux.platform 7 peer [recv_fail 104; chunk "late"] [].

(** A run of [main]: an interrupted accept, a client, then no descriptor
    left. *)
Definition main_run : trace * status :=
  @main Linux.platform ["server"; "9000"] boot_ok
    [accept_fail EINTR; accepted 7; accept_fail 24; accepted 8].

Definition boot_bind_fails : startup :=
  {| st_socket := took 3; st_setsockopt := took 0; st_bind := failed 98;
     st_listen := took 0 |}.

Definition noon : tm :=
  {| tm_year := 126; tm_mon := 10; tm_mday := 3; tm_hour := 12; tm_min := 0; tm_sec := 9 |}.

(** ** Reading traces: who is called, what is written *)

Definition is_log (e : event) : bool :=
  match e with EvLog _ => true | _ => false end.

Definition is_cerr (e : event) : bool :=
  match e with EvCerr _ => true | _ => false end.

(** An event the handler of the connection [fd] may produce: a log
    line, or a call on [fd]; a [recv] is given the whole buffer. *)
Definition handler_event (fd : Z) (e : event) : bool :=
  match e with
  | EvLog _ => true
  | EvRecv f len _ => (f =? fd) && (len =? BUF_SZ)
  | EvSend f _ _ => f =? fd
  | EvClose f => f =? fd
  | _ => false
  end.

(** A result the code takes for an interruption by a signal: a
    negative value with [errno] at [EINTR]. *)
Definition recv_interrupted (r : recv_ret) : bool :=
  (rv_n r <? 0) && (rv_errno r =? EINTR).

Definition accept_interrupted (r : accept_ret) : bool :=
  (ac_fd r <? 0) && (ac_errno r =? EINTR).

Definition interrupted (e : event) : bool :=
  match e with
  | EvRecv _ _ (Some r) => recv_interrupted r
  | EvAccept _ (Some r) => accept_interrupted r
  | _ => false
  end.

(** The first of the four setup calls that failed: its name and its
    [errno]. *)
Definition first_failure (boot : startup) : option (string * Z) :=
  if ret (st_socket boot) <? 0 then Some ("socket", err (st_socket boot))
  else if ret (st_setsockopt boot) <? 0 then Some ("setsockopt", err (st_setsockopt boot))
  else if ret (st_bind boot) <? 0 then Some ("bind", err (st_bind boot))
  else if ret (st_listen boot) <? 0 then Some ("listen", err (st_listen boot))
  else None.

(** The bytes of all the chunks, counted. *)
Definition total_length (cs : list (list byte)) : Z :=
  Z.of_nat (List.length (List.concat cs)).

(** A run of [main] in which the thread of the second client cannot be
    created. *)
Definition accept_no_thread (fd : Z) : accept_ret :=
  {| ac_fd := fd; ac_addr := peer; ac_errno := 0; ac_thread := false |}.

(** ** Reading traces: the results the calls have consumed *)

(** The results the [send] calls, and the [recv] calls, of a trace have
    returned, in call order. *)
Definition send_results (t : trace) : list sysret :=
  flat_map (fun e => match e with EvSend _ _ (Some r) => [r] | _ => [] end) t.

Definition recv_results (t : trace) : list recv_ret :=
  flat_map (fun e => match e with EvRecv _ _ (Some r) => [r] | _ => [] end) t.

(** The trace holds a [send], or a [recv], that has not returned. *)
Definition in_send (t : trace) : bool :=
  existsb (fun e => match e with EvSend _ _ None => true | _ => false end) t.

Definition in_recv (t : trace) : bool :=
  existsb (fun e => match e with EvRecv _ _ None => true | _ => false end) t.


(** * Properties *)

(** ** Runs of the sample inputs *)

Example run_hello_world :
  @handle_client Linux.platform 7 peer
    [chunk "hello"; recv_fail EINTR; chunk "world"; recv_eof]
    [took 2; took 3; took 5]
  = ([EvLog "Connected: 127.0.0.1:5000";
      EvRecv 7 4096 (Some (chunk "hello"));
      EvSend 7 (bytes_of "hello") (Some (took 2));
      EvSend 7 (bytes_of "llo") (Some (took 3));
      EvRecv 7 4096 (Some (recv_fail EINTR));
      EvRecv 7 4096 (Some (chunk "world"));
      EvSend 7 (bytes_of "world") (Some (took 5));
      EvRecv 7 4096 (Some recv_eof);
      EvLog "Client disconnected: 127.0.0.1:5000";
      EvClose 7], PeerClosed).
Proof. vm_compute. reflexivity. Qed.

Example run_send_error :
  @handle_client Linux.platform 7 peer [chunk "hello"; recv_eof] [took 2; failed 32]
  = ([EvLog "Connected: 127.0.0.1:5000";
      EvRecv 7 4096 (Some (chunk "hello"));
      EvSend 7 (bytes_of "hello") (Some (took 2));
      EvSend 7 (bytes_of "llo") (Some (failed 32));
      EvLog "Error in send(): Broken pipe";
      EvClose 7], SendError).
Proof. vm_compute. reflexivity. Qed.

Example run_recv_error :
  @handle_client Linux.platform 7 peer [recv_fail 104; chunk "late"] []
  = ([EvLog "Connected: 127.0.0.1:5000";
      EvRecv 7 4096 (Some (recv_fail 104));
      EvLog "Error in recv(): Connection reset by peer";
      EvClose 7], RecvError).
Proof. vm_compute. reflexivity. Qed.

Example run_blocked_in_send :
  @handle_client Linux.platform 7 peer [chunk "hello"; recv_eof] [took 0; took 0]
  = ([EvLog "Connected: 127.0.0.1:5000";
      EvRecv 7 4096 (Some (chunk "hello"));
      EvSend 7 (bytes_of "hello") (Some (took 0));
      EvSend 7 (bytes_of "hello") (Some (took 0));
      EvSend 7 (bytes_of "hello") None], Blocked).
Proof. vm_compute. reflexivity. Qed.

Example run_main :
  @main Linux.platform ["server"; "9000"] boot_ok
    [accept_fail EINTR; accepted 7; accept_fail 24; accepted 8]
  = ([EvSocket (took 3); EvSetsockopt 3 (took 0); EvBind 3 10275 (took 0);
      EvListen 3 (took 0); EvLog "Listening on port 9000";
      EvAccept 3 (Some (accept_fail EINTR));
      EvAccept 3 (Some (accepted 7)); EvSpawn 7 peer;
      EvAccept 3 (Some (accept_fail 24));
      EvCerr ("accept() failed: Too many open files" +:+ newline);
      EvClose 3], Exited 0).
Proof. vm_compute. reflexivity. Qed.

Example log_line :
  log noon "Listening on port 8080"
  = "[2026-11-03 12:00:09] Listening on port 8080" +:+ newline.
Proof. vm_compute. reflexivity. Qed.

(** ** Lists and slices *)

Lemma each_suffix_split (Q : event -> trace -> Prop) (t : trace) :
  each_suffix Q t <-> (forall pre e post, t = pre ++ e :: post -> Q e post).
Proof.
  induction t as [|a t IH]; simpl.
  - split; [|trivial]. intros _ [|b pre] e post H; discriminate H.
  - rewrite IH. split.
    + intros [Ha Ht] [|b pre] e post H; simpl in H; inversion H; subst.
      * exact Ha.
      * eapply Ht. reflexivity.
    + intros H. split.
      * apply (H [] a t). reflexivity.
      * intros pre e post E. apply (H (a :: pre) e post). simpl. now rewrite E.
Qed.

Lemma slice_length (buf : list byte) (off n : Z) :
  0 <= off -> off < n -> n <= Z.of_nat (List.length buf) ->
  List.length (slice buf off (n - off)) = Z.to_nat (n - off).
Proof.
  intros H0 H1 H2. unfold slice.
  rewrite length_firstn, length_skipn. lia.
Qed.

Lemma slice_skip (buf : list byte) (off len s : Z) :
  0 <= off -> 0 <= s ->
  skipn (Z.to_nat s) (slice buf off len) = slice buf (off + s) (len - s).
Proof.
  intros H0 Hs. unfold slice.
  rewrite skipn_firstn_comm, skipn_skipn.
  f_equal; [lia|]. f_equal. lia.
Qed.

Lemma slice_take (buf : list byte) (off len s : Z) :
  0 <= off -> 0 <= s -> s <= len ->
  slice buf off len = firstn (Z.to_nat s) (slice buf off len) ++ slice buf (off + s) (len - s).
Proof.
  intros H0 Hs Hl.
  rewrite <- (slice_skip buf off len s H0 Hs).
  symmetry. apply firstn_skipn.
Qed.

Lemma store_slice (buf data : list byte) (n : Z) :
  n = Z.of_nat (List.length data) -> n <= BUF_SZ ->
  slice (store buf BUF_SZ data) 0 (n - 0) = data.
Proof.
  intros Hn Hle. unfold slice, store.
  rewrite (@firstn_all2 _ (Z.to_nat BUF_SZ) data) by lia.
  change (Z.to_nat 0) with 0%nat. rewrite skipn_O.
  replace (Z.to_nat (n - 0)) with (List.length data + 0)%nat by lia.
  rewrite firstn_app_2. simpl. apply app_nil_r.
Qed.

Lemma store_length (buf data : list byte) (n : Z) :
  n = Z.of_nat (List.length data) ->
  n <= Z.of_nat (List.length (store buf BUF_SZ data)) \/ BUF_SZ < n.
Proof.
  intros Hn. unfold store.
  destruct (Z_le_gt_dec n BUF_SZ) as [Hle|Hgt]; [left | right; lia].
  rewrite (@firstn_all2 _ (Z.to_nat BUF_SZ) data) by lia.
  rewrite length_app. lia.
Qed.

Lemma includes_self (d : string) : includes d d = true.
Proof.
  assert (H : String.prefix d d = true).
  { induction d as [|c d IH]; simpl; [reflexivity|].
    destruct (ascii_dec c c) as [_|N]; [exact IH | contradiction]. }
  destruct d; simpl in *; [reflexivity | now rewrite H].
Qed.

Lemma includes_app_l (d p s : string) :
  includes d s = true -> includes d (p +:+ s) = true.
Proof.
  intros H. induction p as [|c p IH]; simpl; [exact H|].
  rewrite IH. apply orb_true_r.
Qed.

Lemma prefix_app_r (d s q : string) :
  String.prefix d s = true -> String.prefix d (s +:+ q) = true.
Proof.
  revert s. induction d as [|c d IH]; intros [|c' s]; simpl; try easy.
  - now destruct q.
  - destruct (ascii_dec c c'); [apply IH | easy].
Qed.

Lemma includes_app_r (d s q : string) :
  includes d s = true -> includes d (s +:+ q) = true.
Proof.
  induction s as [|c s IH]; simpl.
  - rewrite orb_false_r. intros H. destruct d; [|discriminate H].
    destruct q; reflexivity.
  - intros H. apply orb_true_iff in H. destruct H as [H|H].
    + change (String c s +:+ q) with (String c (s +:+ q)) in *.
      pose proof (prefix_app_r d (String c s) q H) as H'.
      simpl in H'. now rewrite H'.
    + rewrite (IH H). apply orb_true_r.
Qed.

(** ** A proof rule for the traces of the handler

    To show that [Q x e post] holds of every event [e] of a run that
    leaves by [x], with [post] the events after [e], it is enough to
    show it where the code puts each event. *)

Section HandlerRule.
Context {P : Platform}.
Variables (fd : Z) (client_addr : sockaddr_in).
Variable Q : exit_path -> event -> trace -> Prop.

Let addr_str := inet_ntop (sin_addr client_addr).
Let port := ntohs (sin_port client_addr).
Let bye := EvLog ("Client disconnected: " +:+ addr_str +:+ ":" +:+ to_string port).
Let send_err (r : sysret) := EvLog ("Error in send(): " +:+ strerror (err r)).
Let recv_err (r : recv_ret) := EvLog ("Error in recv(): " +:+ strerror (rv_errno r)).

Hypothesis Q_log : forall x s post, Q x (EvLog s) post.
Hypothesis Q_close : forall x post, Q x (EvClose fd) post.
Hypothesis Q_send_took : forall x d r post,
  0 <= ret r -> Q x (EvSend fd d (Some r)) post.
Hypothesis Q_send_failed : forall d r,
  ret r < 0 -> Q SendError (EvSend fd d (Some r)) [send_err r; EvClose fd].
Hypothesis Q_send_pending : forall d, Q Blocked (EvSend fd d None) [].
Hypothesis Q_recv_data : forall x r post,
  0 < rv_n r -> Q x (EvRecv fd BUF_SZ (Some r)) post.
Hypothesis Q_recv_eof : forall r,
  rv_n r = 0 -> Q PeerClosed (EvRecv fd BUF_SZ (Some r)) [bye; EvClose fd].
Hypothesis Q_recv_eintr : forall x r r' post,
  rv_n r < 0 -> rv_errno r = EINTR ->
  Q x (EvRecv fd BUF_SZ (Some r)) (EvRecv fd BUF_SZ r' :: post).
Hypothesis Q_recv_failed : forall r,
  rv_n r < 0 -> rv_errno r <> EINTR ->
  Q RecvError (EvRecv fd BUF_SZ (Some r)) [recv_err r; EvClose fd].
Hypothesis Q_recv_pending : Q Blocked (EvRecv fd BUF_SZ None) [].

Lemma send_loop_rule (buf : list byte) (n : Z) (ss : list sysret) :
  forall sent t x rest,
    send_loop fd buf n sent ss = (t, x, rest) ->
    match x with
    | SendDone _ =>
        forall hx t', each_suffix (Q hx) t' -> each_suffix (Q hx) (t ++ t')
    | SendFailed => each_suffix (Q SendError) t
    | SendPending _ => each_suffix (Q Blocked) t
    end.
Proof.
  induction ss as [|r ss IH]; intros sent t x rest; simpl.
  - destruct (sent <? n); intros E; inversion E; subst; simpl; auto.
  - destruct (sent <? n).
    + destruct (ret r <? 0) eqn:Hr.
      * intros E; inversion E; subst. simpl.
        apply Z.ltb_lt in Hr. repeat split; auto.
      * destruct (send_loop fd buf n (sent + ret r) ss) as [[t1 x1] r1] eqn:E1.
        intros E; inversion E; subst.
        apply Z.ltb_ge in Hr. specialize (IH _ _ _ _ E1).
        destruct x; simpl; [intros hx t' Ht'|..]; split; auto.
    + intros E; inversion E; subst; simpl; auto.
Qed.

Lemma handle_loop_head (buf : list byte) (rs : list recv_ret) (ss : list sysret) :
  exists r post,
    fst (handle_loop fd addr_str port buf rs ss) = EvRecv fd BUF_SZ r :: post.
Proof.
  destruct rs as [|r rs]; simpl; [now eexists _, _|].
  destruct (0 <? rv_n r).
  - destruct (send_loop _ _ _ _ _) as [[t []] ss'];
      [destruct (handle_loop _ _ _ _ _ _)|..]; now eexists _, _.
  - destruct (rv_n r =? 0); [now eexists _, _|].
    destruct (rv_errno r =? EINTR); [|now eexists _, _].
    destruct (handle_loop _ _ _ _ _ _); now eexists _, _.
Qed.

Lemma handle_loop_rule (rs : list recv_ret) :
  forall buf ss t x,
    handle_loop fd addr_str port buf rs ss = (t, x) ->
    each_suffix (Q x) (t ++ after_loop fd x).
Proof.
  induction rs as [|r rs IH]; intros buf ss t x; simpl.
  - intros E; inversion E; subst; simpl; auto.
  - destruct (0 <? rv_n r) eqn:Hpos.
    + apply Z.ltb_lt in Hpos.
      destruct (send_loop fd (store buf BUF_SZ (rv_data r)) (rv_n r) 0 ss)
        as [[t1 x1] ss1] eqn:E1.
      pose proof (send_loop_rule _ _ _ _ _ _ _ E1) as H1.
      destruct x1.
      * destruct (handle_loop fd addr_str port _ rs ss1) as [t2 x2] eqn:E2.
        intros E; inversion E; subst. simpl. split; [auto|].
        rewrite <- app_assoc. apply H1. eapply IH, E2.
      * intros E; inversion E; subst. simpl. rewrite app_nil_r. auto.
      * intros E; inversion E; subst. simpl. rewrite app_nil_r. auto.
    + apply Z.ltb_ge in Hpos. destruct (rv_n r =? 0) eqn:Hz.
      * apply Z.eqb_eq in Hz. intros E; inversion E; subst. simpl.
        repeat split; auto.
      * apply Z.eqb_neq in Hz. destruct (rv_errno r =? EINTR) eqn:Hi.
        -- apply Z.eqb_eq in Hi.
           destruct (handle_loop fd addr_str port buf rs ss) as [t2 x2] eqn:E2.
           intros E; inversion E; subst. simpl.
           split; [|eapply IH, E2].
           destruct (handle_loop_head buf rs ss) as (r' & post & Hh).
           rewrite E2 in Hh. simpl in Hh. rewrite Hh. simpl.
           apply Q_recv_eintr; [lia | exact Hi].
        -- apply Z.eqb_neq in Hi. intros E; inversion E; subst. simpl.
           repeat split; auto. apply Q_recv_failed; [lia | exact Hi].
Qed.

Lemma handle_client_rule (rs : list recv_ret) (ss : list sysret) :
  each_suffix (Q (snd (handle_client fd client_addr rs ss)))
    (fst (handle_client fd client_addr rs ss)).
Proof.
  unfold handle_client. fold addr_str port.
  destruct (handle_loop fd addr_str port _ rs ss) as [t x] eqn:E.
  simpl. split; [apply Q_log | eapply handle_loop_rule, E].
Qed.

Lemma handle_client_events (rs : list recv_ret) (ss : list sysret) :
  forall pre e post,
    fst (handle_client fd client_addr rs ss) = pre ++ e :: post ->
    Q (snd (handle_client fd client_addr rs ss)) e post.
Proof. apply each_suffix_split, handle_client_rule. Qed.

End HandlerRule.

(** ** What follows a failed call of the handler *)

Section HandlerFailures.
Context {P : Platform}.
Variables (fd : Z) (client_addr : sockaddr_in).
Variables (rs : list recv_ret) (ss : list sysret).

Let run := handle_client fd client_addr rs ss.

Lemma recv_failure_events (pre post : trace) (r : recv_ret) :
  fst run = pre ++ EvRecv fd BUF_SZ (Some r) :: post ->
  rv_n r < 0 ->
  (rv_errno r = EINTR -> exists r' post', post = EvRecv fd BUF_SZ r' :: post') /\
  (rv_errno r <> EINTR ->
     post = [EvLog ("Error in recv(): " +:+ strerror (rv_errno r)); EvClose fd]
     /\ snd run = RecvError).
Proof.
  intros E. revert r E.
  assert (G : forall e, fst run = pre ++ e :: post ->
            forall r, e = EvRecv fd BUF_SZ (Some r) -> rv_n r < 0 ->
            (rv_errno r = EINTR -> exists r' post', post = EvRecv fd BUF_SZ r' :: post') /\
            (rv_errno r <> EINTR ->
               post = [EvLog ("Error in recv(): " +:+ strerror (rv_errno r)); EvClose fd]
               /\ snd run = RecvError)).
  { intros e E.
    refine (handle_client_events fd client_addr
      (fun x e post => forall r, e = EvRecv fd BUF_SZ (Some r) -> rv_n r < 0 ->
         (rv_errno r = EINTR -> exists r' post', post = EvRecv fd BUF_SZ r' :: post') /\
         (rv_errno r <> EINTR ->
            post = [EvLog ("Error in recv(): " +:+ strerror (rv_errno r)); EvClose fd]
            /\ x = RecvError))
      _ _ _ _ _ _ _ _ _ _ rs ss pre e post E);
      try (intros; discriminate).
    - intros x r post0 Hpos r0 H; inversion H; subst. lia.
    - intros r Hz r0 H; inversion H; subst. lia.
    - intros x r r' post0 Hn He r0 H _; inversion H; subst.
      split; [now eexists _, _ | contradiction].
    - intros r Hn He r0 H _; inversion H; subst.
      split; [contradiction | now split]. }
  intros r E. eapply G; [exact E | reflexivity].
Qed.

Lemma send_failure_events (pre post : trace) (d : list byte) (r : sysret) :
  fst run = pre ++ EvSend fd d (Some r) :: post ->
  ret r < 0 ->
  post = [EvLog ("Error in send(): " +:+ strerror (err r)); EvClose fd]
  /\ snd run = SendError.
Proof.
  intros E. revert d r E.
  assert (G : forall e, fst run = pre ++ e :: post ->
            forall d r, e = EvSend fd d (Some r) -> ret r < 0 ->
            post = [EvLog ("Error in send(): " +:+ strerror (err r)); EvClose fd]
            /\ snd run = SendError).
  { intros e E.
    refine (handle_client_events fd client_addr
      (fun x e post => forall d r, e = EvSend fd d (Some r) -> ret r < 0 ->
         post = [EvLog ("Error in send(): " +:+ strerror (err r)); EvClose fd]
         /\ x = SendError)
      _ _ _ _ _ _ _ _ _ _ rs ss pre e post E);
      try (intros; discriminate).
    - intros x d r post0 H0 d0 r0 H; inversion H; subst. lia.
    - intros d r Hn d0 r0 H _; inversion H; subst. now split. }
  intros d r E. eapply G; [exact E | reflexivity].
Qed.

End HandlerFailures.

(** ** Counting the closes *)

Lemma close_count_app (t t' : trace) :
  close_count (t ++ t') = (close_count t + close_count t')%nat.
Proof. unfold close_count. now rewrite filter_app, length_app. Qed.

Section HandlerCloses.
Context {P : Platform}.
Variable fd : Z.

Lemma send_loop_closes (buf : list byte) (n : Z) (ss : list sysret) :
  forall sent t x rest,
    send_loop fd buf n sent ss = (t, x, rest) ->
    match x with
    | SendFailed => exists t0, t = t0 ++ [EvClose fd] /\ close_count t0 = 0%nat
    | _ => close_count t = 0%nat
    end.
Proof.
  induction ss as [|r ss IH]; intros sent t x rest; simpl.
  - destruct (sent <? n); intros E; inversion E; reflexivity.
  - destruct (sent <? n); [|intros E; inversion E; reflexivity].
    destruct (ret r <? 0).
    + intros E; inversion E; subst.
      now exists [EvSend fd (slice buf sent (n - sent)) (Some r);
                  EvLog ("Error in send(): " +:+ strerror (err r))].
    + destruct (send_loop fd buf n (sent + ret r) ss) as [[t1 x1] r1] eqn:E1.
      intros E; inversion E; subst. specialize (IH _ _ _ _ E1).
      destruct x; [exact IH | | exact IH].
      destruct IH as (t0 & -> & H0).
      now exists (EvSend fd (slice buf sent (n - sent)) (Some r) :: t0).
Qed.

Lemma handle_loop_closes (a : string) (p : Z) (rs : list recv_ret) :
  forall buf ss t x,
    handle_loop fd a p buf rs ss = (t, x) ->
    match x with
    | Blocked => close_count (t ++ after_loop fd x) = 0%nat
    | _ => exists t0, t ++ after_loop fd x = t0 ++ [EvClose fd]
                      /\ close_count t0 = 0%nat
    end.
Proof.
  induction rs as [|r rs IH]; intros buf ss t x; simpl.
  - intros E; inversion E; reflexivity.
  - destruct (0 <? rv_n r).
    + destruct (send_loop fd (store buf BUF_SZ (rv_data r)) (rv_n r) 0 ss)
        as [[t1 x1] ss1] eqn:E1.
      pose proof (send_loop_closes _ _ _ _ _ _ _ E1) as H1.
      destruct x1.
      * destruct (handle_loop fd a p _ rs ss1) as [t2 x2] eqn:E2.
        intros E; inversion E; subst. specialize (IH _ _ _ _ E2).
        simpl. rewrite <- app_assoc.
        destruct x.
        1-3: destruct IH as (t0 & -> & H0);
             exists (EvRecv fd BUF_SZ (Some r) :: t1 ++ t0);
             split; [simpl; now rewrite <- app_assoc | ];
             change (close_count (t1 ++ t0) = 0%nat);
             rewrite close_count_app; lia.
        change (close_count (t1 ++ t2 ++ after_loop fd Blocked) = 0%nat).
        rewrite close_count_app. lia.
      * intros E; inversion E; subst. simpl. rewrite app_nil_r.
        destruct H1 as (t0 & -> & H0).
        now exists (EvRecv fd BUF_SZ (Some r) :: t0).
      * intros E; inversion E; subst. simpl. rewrite app_nil_r. exact H1.
    + destruct (rv_n r =? 0).
      * intros E; inversion E; subst. simpl. now eexists [_; _].
      * destruct (rv_errno r =? EINTR).
        -- destruct (handle_loop fd a p buf rs ss) as [t2 x2] eqn:E2.
           intros E; inversion E; subst. specialize (IH _ _ _ _ E2).
           destruct x; [| | |exact IH];
             destruct IH as (t0 & E0 & H0);
             exists (EvRecv fd BUF_SZ (Some r) :: t0);
             (split; [simpl; f_equal; exact E0 | exact H0]).
        -- intros E; inversion E; subst. simpl. now eexists [_; _].
Qed.

End HandlerCloses.

(** ** The bytes of a run *)

Lemma bytes_written_app (t t' : trace) :
  bytes_written (t ++ t') = bytes_written t ++ bytes_written t'.
Proof. apply flat_map_app. Qed.

Lemma bytes_received_app (t t' : trace) :
  bytes_received (t ++ t') = bytes_received t ++ bytes_received t'.
Proof. apply flat_map_app. Qed.

Lemma kernel_ok_app (t t' : trace) :
  kernel_ok (t ++ t') = kernel_ok t && kernel_ok t'.
Proof. apply forallb_app. Qed.

Lemma slice_app (buf : list byte) (off a b : Z) :
  0 <= off -> 0 <= a -> 0 <= b ->
  slice buf off a ++ slice buf (off + a) b = slice buf off (a + b).
Proof.
  intros H0 Ha Hb.
  rewrite (slice_take buf off (a + b) a) by lia.
  replace (a + b - a) with b by lia. f_equal.
  unfold slice. rewrite firstn_firstn. f_equal. lia.
Qed.

Lemma slice_empty (buf : list byte) (off len : Z) : len <= 0 -> slice buf off len = [].
Proof.
  intros H. unfold slice. replace (Z.to_nat len) with 0%nat by lia. reflexivity.
Qed.

Section HandlerBytes.
Context {P : Platform}.
Variable fd : Z.

(** The sends of one chunk take the bytes [sent .. k) of the buffer,
    in order, where [k] is the offset the loop stops at; [k = n] when
    the loop ends by its condition. *)
Lemma send_loop_written (buf : list byte) (n : Z) (ss : list sysret) :
  forall sent t x rest,
    send_loop fd buf n sent ss = (t, x, rest) ->
    0 <= sent -> sent <= n -> n <= Z.of_nat (List.length buf) ->
    kernel_ok t = true ->
    exists k, sent <= k /\ k <= n
      /\ bytes_written t = slice buf sent (k - sent)
      /\ bytes_received t = []
      /\ (forall k', x = SendDone k' -> k' = n /\ k = n).
Proof.
  induction ss as [|r ss IH]; intros sent t x rest; simpl.
  - destruct (sent <? n) eqn:Hlt; intros E H0 H1 H2 Hk; inversion E; subst;
      exists sent; rewrite (slice_empty buf sent (sent - sent)) by lia;
      repeat split; try lia; try discriminate.
    all: try (match goal with H : SendDone _ = SendDone _ |- _ => inversion H; subst end);
      try (apply Z.ltb_ge in Hlt; lia).
  - destruct (sent <? n) eqn:Hlt.
    + apply Z.ltb_lt in Hlt. destruct (ret r <? 0) eqn:Hr.
      * apply Z.ltb_lt in Hr. intros E H0 H1 H2 Hk; inversion E; subst.
        exists sent. rewrite (slice_empty buf sent (sent - sent)) by lia.
        repeat split; try lia; try discriminate; try reflexivity.
        unfold bytes_written; simpl.
        replace (Z.to_nat (ret r)) with 0%nat by lia. reflexivity.
      * apply Z.ltb_ge in Hr.
        destruct (send_loop fd buf n (sent + ret r) ss) as [[t1 x1] r1] eqn:E1.
        intros E H0 H1 H2 Hk; inversion E; subst.
        simpl in Hk. apply andb_true_iff in Hk. destruct Hk as [Hc Hk].
        apply Z.leb_le in Hc.
        rewrite slice_length in Hc by lia.
        destruct (IH _ _ _ _ E1) as (k & Ha & Hb & Hw & Hrcv & Hd);
          try lia; try assumption.
        exists k. split; [lia|]. split; [lia|].
        split; [|split; [assumption | exact Hd]].
        unfold bytes_written in *; simpl. rewrite Hw.
        unfold slice at 1. rewrite firstn_firstn.
        replace (Init.Nat.min (Z.to_nat (ret r)) (Z.to_nat (n - sent)))
          with (Z.to_nat (ret r)) by lia.
        fold (slice buf sent (ret r)).
        replace (k - (sent + ret r)) with (k - sent - ret r) by lia.
        rewrite slice_app by lia. f_equal. lia.
    + apply Z.ltb_ge in Hlt. intros E H0 H1 H2 Hk; inversion E; subst.
      exists sent. rewrite (slice_empty buf sent (sent - sent)) by lia.
      repeat split; try lia; inversion H; lia.
Qed.

Lemma handle_loop_bytes (a : string) (p : Z) (rs : list recv_ret) :
  forall buf ss t x,
    handle_loop fd a p buf rs ss = (t, x) ->
    kernel_ok t = true ->
    (exists rest, bytes_received t = bytes_written t ++ rest) /\
    (x = PeerClosed \/ x = RecvError -> bytes_written t = bytes_received t).
Proof.
  induction rs as [|r rs IH]; intros buf ss t x; simpl.
  - intros E _; inversion E; subst. split; [now exists []|reflexivity].
  - destruct (0 <? rv_n r) eqn:Hpos.
    + apply Z.ltb_lt in Hpos.
      destruct (send_loop fd (store buf BUF_SZ (rv_data r)) (rv_n r) 0 ss)
        as [[t1 x1] ss1] eqn:E1.
      assert (G : kernel_ok (EvRecv fd BUF_SZ (Some r) :: t1) = true ->
                  exists k, 0 <= k /\ k <= rv_n r
                    /\ received (EvRecv fd BUF_SZ (Some r)) = rv_data r
                    /\ bytes_written t1 = firstn (Z.to_nat k) (rv_data r)
                    /\ bytes_received t1 = []
                    /\ (forall k', x1 = SendDone k' -> bytes_written t1 = rv_data r)).
      { simpl. intros Hk. apply andb_true_iff in Hk. destruct Hk as [Hc Hk].
        apply orb_true_iff in Hc. destruct Hc as [Hc|Hc];
          [apply Z.leb_le in Hc; lia|].
        apply andb_true_iff in Hc. destruct Hc as [Hn Hle].
        apply Z.eqb_eq in Hn. apply Z.leb_le in Hle.
        destruct (store_length buf (rv_data r) (rv_n r) Hn) as [Hlen|Hbig]; [|lia].
        destruct (send_loop_written _ _ _ _ _ _ _ E1) as (k & Ha & Hb & Hw & Hr & Hd);
          try lia; try assumption.
        pose proof (store_slice buf (rv_data r) (rv_n r) Hn Hle) as Hs.
        assert (Hw' : bytes_written t1 = firstn (Z.to_nat k) (rv_data r)).
        { rewrite Hw. rewrite <- Hs at 2. unfold slice.
          rewrite firstn_firstn. f_equal. lia. }
        exists k. repeat split; try assumption.
        - simpl. rewrite (proj2 (Z.ltb_lt _ _) Hpos). apply firstn_all2. lia.
        - intros k' Hk'. destruct (Hd k' Hk') as [_ Hkn]. rewrite Hw'.
          apply firstn_all2. lia. }
      destruct x1.
      * destruct (handle_loop fd a p _ rs ss1) as [t2 x2] eqn:E2.
        intros E Hk; inversion E; subst.
        change (EvRecv fd BUF_SZ (Some r) :: t1 ++ t2)
          with ((EvRecv fd BUF_SZ (Some r) :: t1) ++ t2) in Hk.
        rewrite kernel_ok_app in Hk. apply andb_true_iff in Hk.
        destruct Hk as [Hk1 Hk2].
        destruct (G Hk1) as (k & _ & _ & Hrc & _ & Hr1 & Hd).
        specialize (Hd sent eq_refl).
        destruct (IH _ _ _ _ E2 Hk2) as [[rest Hp] Heq].
        unfold bytes_written, bytes_received in *. simpl.
        rewrite !flat_map_app, Hr1, Hd.
        simpl in Hrc. rewrite Hrc. simpl. split.
        -- exists rest. now rewrite Hp, app_assoc.
        -- intros Hx. now rewrite (Heq Hx).
      * intros E Hk; inversion E; subst.
        destruct (G Hk) as (k & _ & _ & Hrc & Hw & Hr1 & _).
        unfold bytes_written, bytes_received in *. simpl.
        simpl in Hrc. rewrite Hrc, Hr1, Hw, app_nil_r. split.
        -- exists (skipn (Z.to_nat k) (rv_data r)). symmetry. apply firstn_skipn.
        -- intros [Hx|Hx]; discriminate Hx.
      * intros E Hk; inversion E; subst.
        destruct (G Hk) as (k & _ & _ & Hrc & Hw & Hr1 & _).
        unfold bytes_written, bytes_received in *. simpl.
        simpl in Hrc. rewrite Hrc, Hr1, Hw, app_nil_r. split.
        -- exists (skipn (Z.to_nat k) (rv_data r)). symmetry. apply firstn_skipn.
        -- intros [Hx|Hx]; discriminate Hx.
    + destruct (rv_n r =? 0).
      * intros E _; inversion E; subst.
        unfold bytes_written, bytes_received; simpl. rewrite Hpos.
        split; [now exists []|reflexivity].
      * destruct (rv_errno r =? EINTR).
        -- destruct (handle_loop fd a p buf rs ss) as [t2 x2] eqn:E2.
           intros E Hk; inversion E; subst.
           simpl in Hk. apply andb_true_iff in Hk. destruct Hk as [_ Hk].
           destruct (IH _ _ _ _ E2 Hk) as [Hp Heq].
           unfold bytes_written, bytes_received in *; simpl. rewrite Hpos.
           simpl. split; assumption.
        -- intros E _; inversion E; subst.
           unfold bytes_written, bytes_received; simpl. rewrite Hpos.
           split; [now exists []|reflexivity].
Qed.

End HandlerBytes.

(** ** The discipline of the write loop *)

Section HandlerDiscipline.
Context {P : Platform}.
Variable fd : Z.

Lemma send_loop_discipline (buf : list byte) (n : Z) (ss : list sysret) :
  forall sent t x rest,
    send_loop fd buf n sent ss = (t, x, rest) ->
    0 <= sent -> n <= Z.of_nat (List.length buf) ->
    forall t',
      match x with
      | SendDone _ => echo_discipline [] t'
      | _ => t' = []
      end ->
      echo_discipline (slice buf sent (n - sent)) (t ++ t').
Proof.
  induction ss as [|r ss IH]; intros sent t x rest; simpl.
  - destruct (sent <? n) eqn:Hlt; intros E H0 H2 t' Ht'; inversion E; subst.
    + apply Z.ltb_lt in Hlt. simpl. repeat split; [|exact Ht'].
      intros Hnil. apply (f_equal (@List.length byte)) in Hnil.
      rewrite slice_length in Hnil by lia. simpl in Hnil. lia.
    + apply Z.ltb_ge in Hlt. simpl. rewrite slice_empty by lia. exact Ht'.
  - destruct (sent <? n) eqn:Hlt.
    + apply Z.ltb_lt in Hlt.
      assert (Hne : 0 <= sent -> n <= Z.of_nat (List.length buf) ->
                    slice buf sent (n - sent) <> []).
      { intros H0 H2 Hnil. apply (f_equal (@List.length byte)) in Hnil.
        rewrite slice_length in Hnil by lia. simpl in Hnil. lia. }
      destruct (ret r <? 0) eqn:Hr.
      * intros E H0 H2 t' Ht'; inversion E; subst.
        simpl in Ht'. subst t'. simpl.
        rewrite Hr. repeat split. now apply Hne.
      * destruct (send_loop fd buf n (sent + ret r) ss) as [[t1 x1] r1] eqn:E1.
        intros E H0 H2 t' Ht'; inversion E; subst. simpl.
        rewrite Hr. apply Z.ltb_ge in Hr. repeat split; [now apply Hne|].
        rewrite slice_skip by lia.
        replace (n - sent - ret r) with (n - (sent + ret r)) by lia.
        eapply IH; [exact E1 | lia | exact H2 | exact Ht'].
    + apply Z.ltb_ge in Hlt. intros E H0 H2 t' Ht'; inversion E; subst.
      simpl. rewrite slice_empty by lia. exact Ht'.
Qed.

Lemma handle_loop_discipline (a : string) (p : Z) (rs : list recv_ret) :
  forall buf ss t x,
    handle_loop fd a p buf rs ss = (t, x) ->
    kernel_ok t = true ->
    echo_discipline [] (t ++ after_loop fd x).
Proof.
  induction rs as [|r rs IH]; intros buf ss t x; simpl.
  - intros E _; inversion E; subst. simpl. auto.
  - destruct (0 <? rv_n r) eqn:Hpos.
    + destruct (send_loop fd (store buf BUF_SZ (rv_data r)) (rv_n r) 0 ss)
        as [[t1 x1] ss1] eqn:E1.
      assert (G : kernel_ok (EvRecv fd BUF_SZ (Some r) :: t1) = true ->
                  forall t',
                    match x1 with
                    | SendDone _ => echo_discipline [] t'
                    | _ => t' = []
                    end ->
                    echo_discipline [] (EvRecv fd BUF_SZ (Some r) :: t1 ++ t')).
      { simpl. intros Hk t' Ht'. apply andb_true_iff in Hk. destruct Hk as [Hc _].
        apply Z.ltb_lt in Hpos.
        apply orb_true_iff in Hc. destruct Hc as [Hc|Hc];
          [apply Z.leb_le in Hc; lia|].
        apply andb_true_iff in Hc. destruct Hc as [Hn Hle].
        apply Z.eqb_eq in Hn. apply Z.leb_le in Hle.
        destruct (store_length buf (rv_data r) (rv_n r) Hn) as [Hlen|Hbig]; [|lia].
        split; [reflexivity|].
        rewrite (proj2 (Z.ltb_lt _ _) Hpos).
        rewrite firstn_all2 by lia.
        rewrite <- (store_slice buf (rv_data r) (rv_n r) Hn Hle) at 1.
        eapply send_loop_discipline; [exact E1 | lia | exact Hlen | exact Ht']. }
      destruct x1.
      * destruct (handle_loop fd a p _ rs ss1) as [t2 x2] eqn:E2.
        intros E Hk; inversion E; subst.
        change (EvRecv fd BUF_SZ (Some r) :: t1 ++ t2)
          with ((EvRecv fd BUF_SZ (Some r) :: t1) ++ t2) in Hk.
        rewrite kernel_ok_app in Hk. apply andb_true_iff in Hk.
        destruct Hk as [Hk1 Hk2].
        change ((EvRecv fd BUF_SZ (Some r) :: t1 ++ t2) ++ after_loop fd x)
          with (EvRecv fd BUF_SZ (Some r) :: (t1 ++ t2) ++ after_loop fd x).
        rewrite <- app_assoc. apply (G Hk1). eapply IH; eassumption.
      * intros E Hk; inversion E; subst.
        change ((EvRecv fd BUF_SZ (Some r) :: t1) ++ after_loop fd SendError)
          with (EvRecv fd BUF_SZ (Some r) :: t1 ++ []).
        now apply G.
      * intros E Hk; inversion E; subst.
        change ((EvRecv fd BUF_SZ (Some r) :: t1) ++ after_loop fd Blocked)
          with (EvRecv fd BUF_SZ (Some r) :: t1 ++ []).
        now apply G.
    + destruct (rv_n r =? 0).
      * intros E _; inversion E; subst. simpl. rewrite Hpos. auto.
      * destruct (rv_errno r =? EINTR).
        -- destruct (handle_loop fd a p buf rs ss) as [t2 x2] eqn:E2.
           intros E Hk; inversion E; subst.
           simpl in Hk. apply andb_true_iff in Hk. destruct Hk as [_ Hk].
           simpl. rewrite Hpos. split; [reflexivity|]. eapply IH; eassumption.
        -- intros E _; inversion E; subst. simpl. rewrite Hpos. auto.
Qed.

End HandlerDiscipline.

(** ** Termination of the write loop *)

Section SendLoopTermination.
Context {P : Platform}.
Variables (fd : Z) (buf : list byte) (n : Z).

Lemma send_loop_terminates (ss : list sysret) :
  forall sent,
    (forall r, In r ss -> ret r <> 0) ->
    n - sent <= Z.of_nat (List.length ss) ->
    exists t x rest,
      send_loop fd buf n sent ss = (t, x, rest)
      /\ (forall k, x <> SendPending k)
      /\ Z.of_nat (send_count t) <= Z.max 0 (n - sent).
Proof.
  induction ss as [|r ss IH]; intros sent Hnz Hlen; simpl in *.
  - destruct (sent <? n) eqn:Hlt; [apply Z.ltb_lt in Hlt; lia|].
    eexists _, _, _. split; [reflexivity|]. split; [discriminate | simpl; lia].
  - destruct (sent <? n) eqn:Hlt.
    + apply Z.ltb_lt in Hlt. destruct (ret r <? 0) eqn:Hr.
      * eexists _, _, _. split; [reflexivity|].
        split; [discriminate | unfold send_count; simpl; lia].
      * apply Z.ltb_ge in Hr.
        assert (Hr0 : ret r <> 0) by (apply Hnz; now left).
        destruct (IH (sent + ret r)) as (t & x & rest & E & Hx & Hc);
          [intros r' Hr'; apply Hnz; now right | lia |].
        rewrite E. eexists _, _, _. split; [reflexivity|].
        split; [exact Hx|]. unfold send_count in *; simpl. lia.
    + eexists _, _, _. split; [reflexivity|].
      split; [discriminate | unfold send_count; simpl; lia].
Qed.

Lemma send_loop_stalls (r : sysret) (k : nat) (sent : Z) :
  ret r = 0 -> sent < n ->
  send_loop fd buf n sent (repeat r k)
  = (repeat (EvSend fd (slice buf sent (n - sent)) (Some r)) k
       ++ [EvSend fd (slice buf sent (n - sent)) None],
     SendPending sent, []).
Proof.
  intros Hr Hlt. induction k as [|k IH]; simpl.
  - now rewrite (proj2 (Z.ltb_lt _ _) Hlt).
  - rewrite (proj2 (Z.ltb_lt _ _) Hlt), Hr. simpl.
    replace (sent + 0) with sent by lia. now rewrite IH.
Qed.

End SendLoopTermination.

(** ** The accept loop *)

Section ListenerFailures.
Context {P : Platform}.

(** What the specification says of a failed accept, for the event [e]
    of a run that ends by [x], followed by [post]. *)
Let accept_policy (broke : Prop) (e : event) (post : trace) : Prop :=
  forall fd r, e = EvAccept fd (Some r) -> ac_fd r < 0 ->
    (ac_errno r = EINTR -> exists r' post', post = EvAccept fd r' :: post') /\
    (ac_errno r <> EINTR ->
       post = [EvCerr ("accept() failed: " +:+ strerror (ac_errno r) +:+ newline);
               EvClose fd]
       /\ broke).

Lemma accept_loop_head (listen_fd : Z) (acs : list accept_ret) :
  exists r post, fst (accept_loop listen_fd acs) = EvAccept listen_fd r :: post.
Proof.
  destruct acs as [|r acs]; simpl; [now eexists _, _|].
  destruct (ac_fd r <? 0).
  - destruct (ac_errno r =? EINTR); [|now eexists _, _].
    destruct (accept_loop listen_fd acs); now eexists _, _.
  - destruct (ac_thread r); [|now eexists _, _].
    destruct (accept_loop listen_fd acs); now eexists _, _.
Qed.

(** The loop is left by [break] only after a failed [accept] whose
    [errno] is not [EINTR], reported on the error stream. *)
Lemma accept_loop_broke (listen_fd : Z) (acs : list accept_ret) :
  forall t,
    accept_loop listen_fd acs = (t, AcceptBroke) ->
    exists t0 r,
      t = t0 ++ [EvAccept listen_fd (Some r);
                 EvCerr ("accept() failed: " +:+ strerror (ac_errno r) +:+ newline)]
      /\ ac_fd r < 0 /\ ac_errno r <> EINTR.
Proof.
  induction acs as [|r acs IH]; intros t; simpl.
  - intros E; discriminate E.
  - destruct (ac_fd r <? 0) eqn:Hneg.
    + apply Z.ltb_lt in Hneg. destruct (ac_errno r =? EINTR) eqn:Hi.
      * destruct (accept_loop listen_fd acs) as [t1 x1].
        intros E; inversion E; subst.
        destruct (IH _ eq_refl) as (t0 & r0 & -> & H1 & H2).
        now exists (EvAccept listen_fd (Some r) :: t0), r0.
      * apply Z.eqb_neq in Hi. intros E; inversion E; subst.
        now exists [], r.
    + destruct (ac_thread r); [|intros E; discriminate E].
      destruct (accept_loop listen_fd acs) as [t1 x1].
      intros E; inversion E; subst.
      destruct (IH _ eq_refl) as (t0 & r0 & -> & H1 & H2).
      now exists (EvAccept listen_fd (Some r) :: EvSpawn (ac_fd r) (ac_addr r) :: t0), r0.
Qed.

Lemma accept_loop_policy (listen_fd : Z) (acs : list accept_ret) :
  forall t x,
    accept_loop listen_fd acs = (t, x) ->
    each_suffix (accept_policy (x = AcceptBroke))
      (t ++ match x with AcceptBroke => [EvClose listen_fd] | _ => [] end).
Proof.
  induction acs as [|r acs IH]; intros t x; simpl.
  - intros E; inversion E; subst. simpl. split; [|exact I].
    intros fd r H; discriminate H.
  - destruct (ac_fd r <? 0) eqn:Hneg.
    + destruct (ac_errno r =? EINTR) eqn:Hi.
      * apply Z.eqb_eq in Hi.
        destruct (accept_loop listen_fd acs) as [t1 x1] eqn:E1.
        intros E; inversion E; subst. simpl. split; [|now apply IH].
        intros fd r0 H _; inversion H; subst.
        split; [intros _ | contradiction].
        destruct (accept_loop_head fd acs) as (r' & post & Hh).
        rewrite E1 in Hh. simpl in Hh. rewrite Hh. simpl. now eexists _, _.
      * apply Z.eqb_neq in Hi. intros E; inversion E; subst. simpl.
        split; [|split; [|split; [|exact I]]];
          try (intros fd r0 H; discriminate H).
        intros fd r0 H _; inversion H; subst.
        split; [contradiction | now split].
    + apply Z.ltb_ge in Hneg. destruct (ac_thread r).
      * destruct (accept_loop listen_fd acs) as [t1 x1] eqn:E1.
        intros E; inversion E; subst. simpl.
        split; [intros fd r0 H; inversion H; subst; lia|].
        split; [intros fd r0 H; discriminate H | now apply IH].
      * intros E; inversion E; subst. simpl.
        split; [intros fd r0 H; inversion H; subst; lia|].
        split; [intros fd r0 H; discriminate H | exact I].
Qed.

Lemma main_accept_policy (argv : list string) (boot : startup) (acs : list accept_ret) :
  each_suffix (accept_policy (snd (main argv boot acs) = Exited 0))
    (fst (main argv boot acs)).
Proof.
  assert (N : forall broke e, is_accept e = false ->
              forall post, accept_policy broke e post).
  { intros broke e He post fd r H. subst e. discriminate He. }
  unfold main. destruct (parse_port argv) as [port|]; [|exact I].
  destruct (ret (st_socket boot) <? 0);
    [simpl; repeat (split; [now apply N|]); exact I|].
  destruct (ret (st_setsockopt boot) <? 0);
    [simpl; repeat (split; [now apply N|]); exact I|].
  destruct (ret (st_bind boot) <? 0);
    [simpl; repeat (split; [now apply N|]); exact I|].
  destruct (ret (st_listen boot) <? 0);
    [simpl; repeat (split; [now apply N|]); exact I|].
  destruct (accept_loop (ret (st_socket boot)) acs) as [t x] eqn:E.
  pose proof (accept_loop_policy _ _ _ _ E) as H.
  assert (G : forall (b1 b2 : Prop) l, (b1 -> b2) ->
              each_suffix (accept_policy b1) l -> each_suffix (accept_policy b2) l).
  { intros b1 b2 l Hb. induction l as [|e l IHl]; simpl; [trivial|].
    intros [He Hl]. split; [|now apply IHl].
    intros fd r H1 H2. destruct (He fd r H1 H2) as [Ha Hc].
    split; [exact Ha|]. intros Hne. destruct (Hc Hne). now split; [|apply Hb]. }
  destruct x; simpl; (repeat (split; [now apply N|])).
  - eapply G; [|exact H]. reflexivity.
  - rewrite app_nil_r in H. eapply G; [|exact H]. intros; discriminate.
  - rewrite app_nil_r in H. eapply G; [|exact H]. intros; discriminate.
Qed.

Lemma accept_failure_events (argv : list string) (boot : startup)
    (acs : list accept_ret) (pre post : trace) (fd : Z) (r : accept_ret) :
  fst (main argv boot acs) = pre ++ EvAccept fd (Some r) :: post ->
  ac_fd r < 0 ->
  (ac_errno r = EINTR -> exists r' post', post = EvAccept fd r' :: post') /\
  (ac_errno r <> EINTR ->
     post = [EvCerr ("accept() failed: " +:+ strerror (ac_errno r) +:+ newline);
             EvClose fd]
     /\ snd (main argv boot acs) = Exited 0).
Proof.
  intros E Hneg.
  pose proof (proj1 (each_suffix_split _ _) (main_accept_policy argv boot acs)
                pre _ post E) as H.
  exact (H fd r eq_refl Hneg).
Qed.

End ListenerFailures.

(** ** The line [log] writes *)

Lemma digit_is_digit (d : Z) : is_digit (digit d) = true.
Proof.
  unfold digit. pose proof (Z.mod_pos_bound d 10 eq_refl) as H.
  assert (E : d mod 10 = 0 \/ d mod 10 = 1 \/ d mod 10 = 2 \/ d mod 10 = 3
              \/ d mod 10 = 4 \/ d mod 10 = 5 \/ d mod 10 = 6 \/ d mod 10 = 7
              \/ d mod 10 = 8 \/ d mod 10 = 9) by lia.
  repeat (destruct E as [E|E]; [now rewrite E|]). now rewrite E.
Qed.

Lemma years_four_digits :
  forallb (fun k => four_digits (fmt_Y (1000 + Z.of_nat k))) (seq 0 (Z.to_nat 9000)) = true.
Proof. vm_compute. reflexivity. Qed.

Lemma fmt_Y_four (y : Z) :
  1000 <= y <= 9999 -> four_digits (fmt_Y y) = true.
Proof.
  intros H. pose proof years_four_digits as A.
  rewrite forallb_forall in A.
  specialize (A (Z.to_nat (y - 1000))).
  replace (1000 + Z.of_nat (Z.to_nat (y - 1000))) with y in A by lia.
  apply A, in_seq. lia.
Qed.

Lemma four_digits_inv (s : string) :
  four_digits s = true ->
  exists a b c d,
    s = String a (String b (String c (String d "")))
    /\ is_digit a = true /\ is_digit b = true
    /\ is_digit c = true /\ is_digit d = true.
Proof.
  unfold four_digits.
  destruct s as [|a [|b [|c [|d [|e s]]]]]; simpl; intros H;
    rewrite ?andb_false_r in H; try discriminate H.
  rewrite !andb_true_r in H.
  apply andb_true_iff in H. destruct H as [Ha H].
  apply andb_true_iff in H. destruct H as [Hb H].
  apply andb_true_iff in H. destruct H as [Hc Hd].
  now exists a, b, c, d.
Qed.

Lemma log_is_log_line (now : tm) (s : string) :
  tm_ok now = true -> is_log_line (log now s) = true.
Proof.
  unfold tm_ok. intros H.
  repeat (apply andb_true_iff in H; destruct H as [H ?]).
  assert (Hy : 1000 <= tm_year now + 1900 <= 9999)
    by (split; apply Z.leb_le; assumption).
  apply fmt_Y_four, four_digits_inv in Hy.
  destruct Hy as (a & b & c & d & Hy & Ha & Hb & Hc & Hd).
  unfold log, put_time_F_T. rewrite Hy.
  unfold is_log_line, pad2. cbn -[digit is_digit].
  now rewrite !digit_is_digit, Ha, Hb, Hc, Hd.
Qed.

Lemma log_includes (now : tm) (d s : string) :
  includes d s = true -> includes d (log now s) = true.
Proof.
  intros H. unfold log.
  apply includes_app_l, includes_app_l, includes_app_l, includes_app_r, H.
Qed.

(** ** Runs that complete *)

Section CompleteRuns.
Context {P : Platform}.
Variable fd : Z.

Lemma send_loop_whole (buf : list byte) (n : Z) (ss : list sysret) :
  0 < n ->
  send_loop fd buf n 0 (took n :: ss)
  = ([EvSend fd (slice buf 0 (n - 0)) (Some (took n))], SendDone (0 + n), ss).
Proof.
  intros Hn. cbn [send_loop ret took].
  rewrite (proj2 (Z.ltb_lt _ _) Hn).
  replace (n <? 0) with false by (symmetry; apply Z.ltb_ge; lia).
  assert (E : send_loop fd buf n (0 + n) ss = ([], SendDone (0 + n), ss)).
  { destruct ss; cbn [send_loop];
      now replace (0 + n <? n) with false by (symmetry; apply Z.ltb_ge; lia). }
  now rewrite E.
Qed.

(** When every chunk is taken whole by one [send], the loop reaches the
    close of the peer, the calls keep their contract, and the bytes
    received are the chunks in order. *)
Lemma handle_loop_completes (a : string) (p : Z) (cs : list (list byte)) :
  Forall (fun c => 0 < Z.of_nat (List.length c) <= BUF_SZ) cs ->
  forall buf,
    let run := handle_loop fd a p buf (map data_chunk cs ++ [recv_eof]) (map whole cs) in
    snd run = PeerClosed
    /\ kernel_ok (fst run) = true
    /\ bytes_received (fst run) = List.concat cs.
Proof.
  induction 1 as [|c cs [Hpos Hle] Hcs IH]; intros buf.
  - repeat split.
  - cbn [map app handle_loop rv_n rv_data data_chunk].
    rewrite (proj2 (Z.ltb_lt _ _) Hpos).
    change (whole c) with (took (Z.of_nat (List.length c))).
    rewrite send_loop_whole by exact Hpos.
    specialize (IH (store buf BUF_SZ c)). cbv zeta in IH.
    destruct (handle_loop fd a p (store buf BUF_SZ c)
                (map data_chunk cs ++ [recv_eof]) (map whole cs)) as [t x].
    cbn [fst snd] in *. destruct IH as (Hx & Hk & Hr).
    split; [exact Hx|].
    rewrite (store_slice buf c _ eq_refl Hle).
    split.
    + cbn [app kernel_ok forallb call_ok rv_n rv_data ret took].
      fold (kernel_ok t). rewrite Hk, Z.eqb_refl.
      change (rv_n (data_chunk c)) with (Z.of_nat (List.length c)).
      rewrite (proj2 (Z.leb_le _ _) Hle), (proj2 (Z.leb_le _ _) (Z.le_refl _)).
      now rewrite orb_true_r.
    + cbn [app bytes_received flat_map received].
      change (rv_n (data_chunk c)) with (Z.of_nat (List.length c)).
      change (rv_data (data_chunk c)) with c.
      rewrite (proj2 (Z.ltb_lt _ _) Hpos).
      fold (bytes_received t). rewrite Hr, Nat2Z.id, firstn_all. reflexivity.
Qed.

End CompleteRuns.

(** X1.  Every sequence of chunks can be echoed to the end: with sends
    that take each chunk whole the handler reaches the close of the peer
    and has written the chunks, in order. *)
Lemma echo_completes {P : Platform} (fd : Z) (client_addr : sockaddr_in)
    (cs : list (list byte)) :
  Forall (fun c => 0 < Z.of_nat (List.length c) <= BUF_SZ) cs ->
  let run := handle_client fd client_addr (map data_chunk cs ++ [recv_eof]) (map whole cs) in
  snd run = PeerClosed
  /\ kernel_ok (fst run) = true
  /\ bytes_written (fst run) = List.concat cs.
Proof.
  intros Hcs. cbv zeta. unfold handle_client.
  pose proof (handle_loop_completes fd (inet_ntop (sin_addr client_addr))
                (ntohs (sin_port client_addr)) cs Hcs
                (repeat x00 (Z.to_nat BUF_SZ))) as H.
  cbv zeta in H.
  destruct (handle_loop fd _ _ _ (map data_chunk cs ++ [recv_eof]) (map whole cs))
    as [t x] eqn:E.
  cbn [fst snd] in *. destruct H as (Hx & Hk & Hr).
  destruct (handle_loop_bytes fd _ _ _ _ _ _ _ E Hk) as [_ Heq].
  subst x. split; [reflexivity|]. split.
  - change (kernel_ok (t ++ [EvClose fd]) = true).
    rewrite kernel_ok_app, Hk. reflexivity.
  - change (bytes_written (t ++ [EvClose fd]) = List.concat cs).
    rewrite bytes_written_app, (Heq (or_introl eq_refl)), Hr. apply app_nil_r.
Qed.

(** Every connection [accept] returns is handed, with the address
    [accept] stored, to a new [handle_client] thread. *)
Lemma accepted_client_spawned {P : Platform} (listen_fd : Z) (acs : list accept_ret) :
  each_suffix
    (fun e post =>
       forall fd r, e = EvAccept fd (Some r) -> 0 <= ac_fd r -> ac_thread r = true ->
         exists post', post = EvSpawn (ac_fd r) (ac_addr r) :: post')
    (fst (accept_loop listen_fd acs)).
Proof.
  induction acs as [|r acs IH]; simpl.
  - split; [|exact I]. intros fd r H; discriminate H.
  - destruct (ac_fd r <? 0) eqn:Hneg.
    + apply Z.ltb_lt in Hneg. destruct (ac_errno r =? EINTR).
      * destruct (accept_loop listen_fd acs) as [t x]. simpl in *.
        split; [|exact IH]. intros fd r0 H; inversion H; subst. lia.
      * simpl. split; [|split; [|exact I]].
        -- intros fd r0 H; inversion H; subst. lia.
        -- intros fd r0 H; discriminate H.
    + destruct (ac_thread r) eqn:Ht.
      * destruct (accept_loop listen_fd acs) as [t x]. simpl in *.
        split; [|split; [|exact IH]].
        -- intros fd r0 H _ _; inversion H; subst. now eexists.
        -- intros fd r0 H; discriminate H.
      * simpl. split; [|split; [|exact I]].
        -- intros fd r0 H _ Hr0; inversion H; subst. congruence.
        -- intros fd r0 H; discriminate H.
Qed.

(** * The claims of the specification *)

(** ** The connection handler *)

Section HandlerClaims.
Context {P : Platform}.
Variables (fd : Z) (client_addr : sockaddr_in).
Variables (rs : list recv_ret) (ss : list sysret).

Let run := handle_client fd client_addr rs ss.

(** C3, the connection is closed exactly once.  A run that has left
    the handler, by any of the three ways out, ends with the close of
    the connection and holds no other close; a run still inside a call
    holds none. *)
Theorem closed_exactly_once :
  (snd run = Blocked -> close_count (fst run) = 0%nat) /\
  (snd run <> Blocked ->
     close_count (fst run) = 1%nat
     /\ exists t0, fst run = t0 ++ [EvClose fd] /\ close_count t0 = 0%nat).
Proof.
  subst run. unfold handle_client.
  destruct (handle_loop fd _ _ _ rs ss) as [t x] eqn:E. cbn [fst snd].
  pose proof (handle_loop_closes fd _ _ _ _ _ _ _ E) as H.
  split.
  - intros ->. exact H.
  - intros Hx.
    assert (G : exists t0, t ++ after_loop fd x = t0 ++ [EvClose fd]
                           /\ close_count t0 = 0%nat)
      by (destruct x; try exact H; contradiction).
    destruct G as (t0 & E0 & H0). rewrite E0. split.
    + change (close_count (t0 ++ [EvClose fd]) = 1%nat).
      rewrite close_count_app, H0. reflexivity.
    + now eexists (_ :: t0).
Qed.

(** C4, errors of [recv].  After a [recv] that failed, the next event
    is another [recv] exactly when [errno] is [EINTR], and that
    iteration changed nothing: the loop goes on from the same buffer
    and the same pending results.  After any other error the handler
    logs the error and leaves the loop. *)
Theorem recv_error_policy (pre post : trace) (r : recv_ret) :
  fst run = pre ++ EvRecv fd BUF_SZ (Some r) :: post ->
  rv_n r < 0 ->
  (rv_errno r = EINTR <-> exists r' post', post = EvRecv fd BUF_SZ r' :: post') /\
  (rv_errno r = EINTR ->
     forall a p buf rs0 ss0,
       handle_loop fd a p buf (r :: rs0) ss0
       = (EvRecv fd BUF_SZ (Some r) :: fst (handle_loop fd a p buf rs0 ss0),
          snd (handle_loop fd a p buf rs0 ss0))) /\
  (rv_errno r <> EINTR ->
     post = [EvLog ("Error in recv(): " +:+ strerror (rv_errno r)); EvClose fd]
     /\ snd run = RecvError).
Proof.
  intros E Hn.
  destruct (recv_failure_events fd client_addr rs ss pre post r E Hn) as [Hi He].
  split; [|split; [|exact He]].
  - split; [exact Hi|]. intros (r' & post' & Hp).
    destruct (Z.eq_dec (rv_errno r) EINTR) as [Heq|Hne]; [exact Heq|].
    destruct (He Hne) as [Hq _]. rewrite Hq in Hp. discriminate Hp.
  - intros Heq a p buf rs0 ss0. simpl.
    replace (0 <? rv_n r) with false by (symmetry; apply Z.ltb_ge; lia).
    replace (rv_n r =? 0) with false by (symmetry; apply Z.eqb_neq; lia).
    rewrite Heq, Z.eqb_refl. now destruct (handle_loop fd a p buf rs0 ss0).
Qed.

(** C5, close of the peer.  After a [recv] that returned 0 the handler
    logs the disconnect line, with the address it was given at accept
    time, and closes the connection; the run holds nothing after that:
    no further [recv], no [send]. *)
Theorem peer_close_policy (pre post : trace) (r : recv_ret) :
  fst run = pre ++ EvRecv fd BUF_SZ (Some r) :: post ->
  rv_n r = 0 ->
  post = [EvLog ("Client disconnected: " +:+ inet_ntop (sin_addr client_addr)
                   +:+ ":" +:+ to_string (ntohs (sin_port client_addr)));
          EvClose fd]
  /\ snd run = PeerClosed.
Proof.
  intros E. revert r E.
  assert (G : forall e, fst run = pre ++ e :: post ->
            forall r, e = EvRecv fd BUF_SZ (Some r) -> rv_n r = 0 ->
            post = [EvLog ("Client disconnected: " +:+ inet_ntop (sin_addr client_addr)
                             +:+ ":" +:+ to_string (ntohs (sin_port client_addr)));
                    EvClose fd]
            /\ snd run = PeerClosed).
  { intros e E.
    refine (handle_client_events fd client_addr
      (fun x e post => forall r, e = EvRecv fd BUF_SZ (Some r) -> rv_n r = 0 ->
         post = [EvLog ("Client disconnected: " +:+ inet_ntop (sin_addr client_addr)
                          +:+ ":" +:+ to_string (ntohs (sin_port client_addr)));
                 EvClose fd]
         /\ x = PeerClosed)
      _ _ _ _ _ _ _ _ _ _ rs ss pre e post E);
      try (intros; discriminate).
    - intros x r post0 Hpos r0 H; inversion H; subst. lia.
    - intros r Hz r0 H _; inversion H; subst. now split.
    - intros x r r' post0 Hn He r0 H; inversion H; subst. lia.
    - intros r Hn He r0 H; inversion H; subst. lia. }
  intros r E. eapply G; [exact E | reflexivity].
Qed.

(** C10, errors of [send].  After a [send] that returned a negative
    value, whatever [errno] is, [EINTR] included, the handler logs the
    error, closes the connection and returns: it does not call [send]
    again. *)
Theorem send_error_policy (pre post : trace) (d : list byte) (r : sysret) :
  fst run = pre ++ EvSend fd d (Some r) :: post ->
  ret r < 0 ->
  post = [EvLog ("Error in send(): " +:+ strerror (err r)); EvClose fd]
  /\ send_count post = 0%nat
  /\ snd run = SendError.
Proof.
  intros E Hn.
  destruct (send_failure_events fd client_addr rs ss pre post d r E Hn) as [Hp Hx].
  split; [exact Hp|]. split; [|exact Hx].
  rewrite Hp. reflexivity.
Qed.

End HandlerClaims.

(** C9, termination of the write loop.  For an offset inside a chunk
    that lies in the buffer ([0 <= sent < n <= length buf]), and [send]
    calls that keep their contract (a byte count is at most the length
    asked for, so that [sent += s] does not leave the chunk): when no
    [send] returns 0 the remaining bytes decrease at every call and the
    loop is left after at most [n - sent] calls, by an error or by its
    condition with [sent = n]; when the calls return 0 the loop makes no
    progress: after any number of them it is inside one more [send] at
    the same offset. *)
Theorem write_loop_termination {P : Platform} (fd : Z) (buf : list byte) (n sent : Z) :
  0 <= sent -> sent < n -> n <= Z.of_nat (List.length buf) ->
  (forall ss,
     (forall r, In r ss -> ret r <> 0) ->
     kernel_ok (fst (fst (send_loop fd buf n sent ss))) = true ->
     n - sent <= Z.of_nat (List.length ss) ->
     exists t x rest,
       send_loop fd buf n sent ss = (t, x, rest)
       /\ (forall k, x <> SendPending k)
       /\ Z.of_nat (send_count t) <= n - sent
       /\ (forall k, x = SendDone k -> k = n)) /\
  (forall r k,
     ret r = 0 ->
     send_loop fd buf n sent (repeat r k)
     = (repeat (EvSend fd (slice buf sent (n - sent)) (Some r)) k
          ++ [EvSend fd (slice buf sent (n - sent)) None],
        SendPending sent, [])).
Proof.
  intros H0 Hlt Hbuf. split.
  - intros ss Hnz Hk Hlen.
    destruct (send_loop_terminates fd buf n ss sent Hnz Hlen)
      as (t & x & rest & E & Hx & Hc).
    rewrite E in Hk. cbn [fst] in Hk.
    destruct (send_loop_written fd buf n ss sent t x rest E H0) as (k & _ & _ & _ & _ & Hd);
      [lia | exact Hbuf | exact Hk |].
    exists t, x, rest. split; [exact E|]. split; [exact Hx|]. split; [lia|].
    intros k' Hk'. now destruct (Hd k' Hk').
  - intros r k Hr. now apply send_loop_stalls.
Qed.

(** ** The listener *)

Section ListenerClaims.
Context {P : Platform}.
Variables (argv : list string) (boot : startup) (acs : list accept_ret).

(** C6, errors of [accept].  After an [accept] that failed, the next
    event is another [accept] exactly when [errno] is [EINTR], and
    that iteration changed nothing.  Any other error is fatal: it is
    reported on the error stream, the loop is left, the listening
    socket is closed, and [main] returns. *)
Theorem accept_error_policy (pre post : trace) (fd : Z) (r : accept_ret) :
  fst (main argv boot acs) = pre ++ EvAccept fd (Some r) :: post ->
  ac_fd r < 0 ->
  (ac_errno r = EINTR <-> exists r' post', post = EvAccept fd r' :: post') /\
  (ac_errno r = EINTR ->
     forall acs0,
       accept_loop fd (r :: acs0)
       = (EvAccept fd (Some r) :: fst (accept_loop fd acs0),
          snd (accept_loop fd acs0))) /\
  (ac_errno r <> EINTR ->
     post = [EvCerr ("accept() failed: " +:+ strerror (ac_errno r) +:+ newline);
             EvClose fd]
     /\ snd (main argv boot acs) = Exited 0).
Proof.
  intros E Hn.
  destruct (accept_failure_events argv boot acs pre post fd r E Hn) as [Hi He].
  split; [|split; [|exact He]].
  - split; [exact Hi|]. intros (r' & post' & Hp).
    destruct (Z.eq_dec (ac_errno r) EINTR) as [Heq|Hne]; [exact Heq|].
    destruct (He Hne) as [Hq _]. rewrite Hq in Hp. discriminate Hp.
  - intros Heq acs0. simpl.
    rewrite (proj2 (Z.ltb_lt _ _) Hn), Heq, Z.eqb_refl.
    now destruct (accept_loop fd acs0).
Qed.

(** C7, exit codes.  When [std::stoi] gave a port: if one of [socket],
    [setsockopt], [bind], [listen] fails, [main] returns 1 and its
    trace holds no [accept]; if none fails and the accept loop is left
    by its [break], which happens only after an error other than [EINTR]
    of a failed [accept], [main] reports the error, closes the listening
    socket and returns 0; and [main] returns no code in any other way. *)
Theorem exit_codes (port : Z) :
  parse_port argv = Some port ->
  (startup_failed boot = true ->
     snd (main argv boot acs) = Exited 1
     /\ forallb (fun e => negb (is_accept e)) (fst (main argv boot acs)) = true) /\
  (startup_failed boot = false ->
     snd (accept_loop (ret (st_socket boot)) acs) = AcceptBroke ->
     snd (main argv boot acs) = Exited 0
     /\ exists t0 r,
          fst (main argv boot acs)
          = t0 ++ [EvAccept (ret (st_socket boot)) (Some r);
                   EvCerr ("accept() failed: " +:+ strerror (ac_errno r) +:+ newline);
                   EvClose (ret (st_socket boot))]
          /\ ac_fd r < 0 /\ ac_errno r <> EINTR) /\
  (forall c, snd (main argv boot acs) = Exited c ->
     (c = 1 /\ startup_failed boot = true) \/
     (c = 0 /\ startup_failed boot = false
      /\ snd (accept_loop (ret (st_socket boot)) acs) = AcceptBroke)).
Proof.
  intros Hp. unfold main, startup_failed. rewrite Hp.
  destruct (ret (st_socket boot) <? 0);
    [simpl; repeat split; try discriminate; intros c H; inversion H; now left|].
  destruct (ret (st_setsockopt boot) <? 0);
    [simpl; repeat split; try discriminate; intros c H; inversion H; now left|].
  destruct (ret (st_bind boot) <? 0);
    [simpl; repeat split; try discriminate; intros c H; inversion H; now left|].
  destruct (ret (st_listen boot) <? 0);
    [simpl; repeat split; try discriminate; intros c H; inversion H; now left|].
  destruct (accept_loop (ret (st_socket boot)) acs) as [t x] eqn:E.
  cbn [fst snd orb]. split; [discriminate|]. split.
  - intros _ Hx. subst x. split; [reflexivity|].
    destruct (accept_loop_broke _ _ _ E) as (t0 & r & -> & Hneg & Hne).
    exists (EvSocket (st_socket boot)
              :: EvSetsockopt (ret (st_socket boot)) (st_setsockopt boot)
              :: EvBind (ret (st_socket boot)) (htons port) (st_bind boot)
              :: EvListen (ret (st_socket boot)) (st_listen boot)
              :: EvLog ("Listening on port " +:+ to_string port) :: t0), r.
    split; [|now split]. cbn [app]. now rewrite <- app_assoc.
  - intros c. destruct x; cbn [fst snd]; intros H; inversion H. now right.
Qed.

End ListenerClaims.

(** ** Error reports *)

(** C8 as the specification states it fails for [accept]: with no
    descriptor left ([errno] 24) the run of [main] writes no line of the
    form [[YYYY-MM-DD HH:MM:SS] <message>] that includes the description
    of the error. *)
Lemma accept_error_not_a_log_line :
  reported_as_log_line noon (Linux.strerror 24)
    (fst (@main Linux.platform ["server"] boot_ok [accept_fail 24])) = false.
Proof. vm_compute. reflexivity. Qed.

(** C8, amended.  When the clock reads a time [std::localtime] can give:
    an error of [recv] other than [EINTR] and every error of [send] are
    reported through [log], as a line of the form
    [[YYYY-MM-DD HH:MM:SS] <message>] that includes the description of
    the error; an error of [accept] other than [EINTR] is written on the
    error stream as [accept() failed: <description>], which is not of
    that form; and after [EINTR] from [recv] or [accept] the next event
    is the call again, with no report. *)
Theorem error_reports {P : Platform} (now : tm) :
  tm_ok now = true ->
  (forall fd addr rs ss pre post r,
     fst (handle_client fd addr rs ss) = pre ++ EvRecv fd BUF_SZ (Some r) :: post ->
     rv_n r < 0 ->
     (rv_errno r <> EINTR ->
        exists msg post' line,
          post = EvLog msg :: post'
          /\ written now (EvLog msg) = Some (Cout, line)
          /\ is_log_line line = true
          /\ includes (strerror (rv_errno r)) line = true) /\
     (rv_errno r = EINTR -> exists r' post', post = EvRecv fd BUF_SZ r' :: post')) /\
  (forall fd addr rs ss pre post d r,
     fst (handle_client fd addr rs ss) = pre ++ EvSend fd d (Some r) :: post ->
     ret r < 0 ->
     exists msg post' line,
       post = EvLog msg :: post'
       /\ written now (EvLog msg) = Some (Cout, line)
       /\ is_log_line line = true
       /\ includes (strerror (err r)) line = true) /\
  (forall argv boot acs pre post fd r,
     fst (main argv boot acs) = pre ++ EvAccept fd (Some r) :: post ->
     ac_fd r < 0 ->
     (ac_errno r <> EINTR ->
        exists post' line,
          post = EvCerr line :: post'
          /\ written now (EvCerr line) = Some (Cerr, line)
          /\ line = "accept() failed: " +:+ strerror (ac_errno r) +:+ newline
          /\ is_log_line line = false) /\
     (ac_errno r = EINTR -> exists r' post', post = EvAccept fd r' :: post')).
Proof.
  intros Hnow. split; [|split].
  - intros fd addr rs ss pre post r E Hn.
    destruct (recv_failure_events fd addr rs ss pre post r E Hn) as [Hi He].
    split; [|exact Hi]. intros Hne. destruct (He Hne) as [Hp _].
    eexists _, _, _. split; [exact Hp|]. split; [reflexivity|].
    split; [now apply log_is_log_line|].
    apply log_includes, includes_app_l, includes_self.
  - intros fd addr rs ss pre post d r E Hn.
    destruct (send_failure_events fd addr rs ss pre post d r E Hn) as [Hp _].
    eexists _, _, _. split; [exact Hp|]. split; [reflexivity|].
    split; [now apply log_is_log_line|].
    apply log_includes, includes_app_l, includes_self.
  - intros argv boot acs pre post fd r E Hn.
    destruct (accept_failure_events argv boot acs pre post fd r E Hn) as [Hi He].
    split; [|exact Hi]. intros Hne. destruct (He Hne) as [Hp _].
    eexists _, _. split; [exact Hp|]. repeat split.
Qed.

(** ** The claims at the sample runs *)

Lemma closed_exactly_once_witness :
  snd eintr_run <> Blocked /\ close_count (fst eintr_run) = 1%nat.
Proof.
  assert (N : snd eintr_run <> Blocked) by (vm_compute; discriminate).
  split; [exact N|].
  exact (proj1 (proj2 (@closed_exactly_once Linux.platform 7 peer
                         [chunk "hello"; recv_eof] [took 2; failed EINTR]) N)).
Defined.

Lemma recv_error_policy_witness :
  snd reset_run = RecvError
  /\ exists r' post',
       [EvRecv 7 BUF_SZ (Some (chunk "world")); EvSend 7 (bytes_of "world") (Some (took 5));
        EvRecv 7 BUF_SZ (Some recv_eof);
        EvLog "Client disconnected: 127.0.0.1:5000"; EvClose 7]
       = EvRecv 7 BUF_SZ r' :: post'.
Proof.
  split.
  - refine (proj2 (proj2 (proj2 (@recv_error_policy Linux.platform 7 peer
              [recv_fail 104; chunk "late"] []
              [EvLog "Connected: 127.0.0.1:5000"]
              [EvLog "Error in recv(): Connection reset by peer"; EvClose 7]
              (recv_fail 104) _ _)) _)).
    + vm_compute. reflexivity.
    + vm_compute. reflexivity.
    + vm_compute. discriminate.
  - refine (proj1 (proj1 (@recv_error_policy Linux.platform 7 peer hello_rs hello_ss
              [EvLog "Connected: 127.0.0.1:5000";
               EvRecv 7 BUF_SZ (Some (chunk "hello"));
               EvSend 7 (bytes_of "hello") (Some (took 2));
               EvSend 7 (bytes_of "llo") (Some (took 3))]
              _ (recv_fail EINTR) _ _)) _).
    + vm_compute. reflexivity.
    + vm_compute. reflexivity.
    + reflexivity.
Defined.

Lemma peer_close_policy_witness :
  snd hello_run = PeerClosed.
Proof.
  refine (proj2 (@peer_close_policy Linux.platform 7 peer hello_rs hello_ss
            [EvLog "Connected: 127.0.0.1:5000";
             EvRecv 7 BUF_SZ (Some (chunk "hello"));
             EvSend 7 (bytes_of "hello") (Some (took 2));
             EvSend 7 (bytes_of "llo") (Some (took 3));
             EvRecv 7 BUF_SZ (Some (recv_fail EINTR));
             EvRecv 7 BUF_SZ (Some (chunk "world"));
             EvSend 7 (bytes_of "world") (Some (took 5))]
            [EvLog "Client disconnected: 127.0.0.1:5000"; EvClose 7]
            recv_eof _ _)).
  - vm_compute. reflexivity.
  - reflexivity.
Defined.

Lemma send_error_policy_witness :
  snd eintr_run = SendError.
Proof.
  refine (proj2 (proj2 (@send_error_policy Linux.platform 7 peer
            [chunk "hello"; recv_eof] [took 2; failed EINTR]
            [EvLog "Connected: 127.0.0.1:5000";
             EvRecv 7 BUF_SZ (Some (chunk "hello"));
             EvSend 7 (bytes_of "hello") (Some (took 2))]
            [EvLog "Error in send(): Interrupted system call"; EvClose 7]
            (bytes_of "llo") (failed EINTR) _ _))).
  - vm_compute. reflexivity.
  - vm_compute. reflexivity.
Defined.

Lemma write_loop_termination_witness :
  (0 <= 0 /\ 0 < 5 /\ 5 <= Z.of_nat (List.length (bytes_of "hello")))
  /\ exists t x rest,
       @send_loop Linux.platform 7 (bytes_of "hello") 5 0
         [took 2; took 1; failed 32; took 1; took 1] = (t, x, rest)
       /\ (forall k, x <> SendPending k)
       /\ Z.of_nat (send_count t) <= 5 - 0
       /\ (forall k, x = SendDone k -> k = 5).
Proof.
  assert (L0 : 0 <= 0) by discriminate.
  assert (L1 : 0 < 5) by reflexivity.
  assert (L2 : 5 <= Z.of_nat (List.length (bytes_of "hello")))
    by (vm_compute; discriminate).
  split; [now repeat split|].
  apply (proj1 (@write_loop_termination Linux.platform 7 (bytes_of "hello") 5 0
                  L0 L1 L2)).
  - intros r Hin. simpl in Hin.
    destruct Hin as [<-|[<-|[<-|[<-|[<-|[]]]]]]; discriminate.
  - vm_compute. reflexivity.
  - vm_compute. discriminate.
Defined.

Lemma accept_error_policy_witness :
  snd main_run = Exited 0.
Proof.
  refine (proj2 (proj2 (proj2 (@accept_error_policy Linux.platform
            ["server"; "9000"] boot_ok
            [accept_fail EINTR; accepted 7; accept_fail 24; accepted 8]
            [EvSocket (took 3); EvSetsockopt 3 (took 0); EvBind 3 10275 (took 0);
             EvListen 3 (took 0); EvLog "Listening on port 9000";
             EvAccept 3 (Some (accept_fail EINTR));
             EvAccept 3 (Some (accepted 7)); EvSpawn 7 peer]
            [EvCerr ("accept() failed: Too many open files" +:+ newline); EvClose 3]
            3 (accept_fail 24) _ _)) _)).
  - vm_compute. reflexivity.
  - vm_compute. reflexivity.
  - vm_compute. discriminate.
Defined.

Lemma exit_codes_witness :
  @parse_port Linux.platform ["server"; "9000"] = Some 9000
  /\ snd (@main Linux.platform ["server"; "9000"] boot_bind_fails [accepted 7]) = Exited 1.
Proof.
  assert (E : @parse_port Linux.platform ["server"; "9000"] = Some 9000)
    by (vm_compute; reflexivity).
  split; [exact E|].
  refine (proj1 (proj1 (@exit_codes Linux.platform ["server"; "9000"]
            boot_bind_fails [accepted 7] 9000 E) _)).
  vm_compute. reflexivity.
Defined.

Lemma error_reports_witness :
  tm_ok noon = true
  /\ exists msg post' line,
       [EvLog "Error in send(): Interrupted system call"; EvClose 7] = EvLog msg :: post'
       /\ written noon (EvLog msg) = Some (Cout, line)
       /\ is_log_line line = true
       /\ includes (Linux.strerror EINTR) line = true.
Proof.
  assert (T : tm_ok noon = true) by (vm_compute; reflexivity).
  split; [exact T|].
  refine (proj1 (proj2 (@error_reports Linux.platform noon T)) 7 peer
            [chunk "hello"; recv_eof] [took 2; failed EINTR]
            [EvLog "Connected: 127.0.0.1:5000";
             EvRecv 7 BUF_SZ (Some (chunk "hello"));
             EvSend 7 (bytes_of "hello") (Some (took 2))]
            _ (bytes_of "llo") (failed EINTR) _ _).
  - vm_compute. reflexivity.
  - vm_compute. reflexivity.
Defined.

(** * Further properties of the code *)

(** ** The handler and its descriptor *)

Section HandlerOwnership.
Context {P : Platform}.
Variable fd : Z.

Lemma send_loop_own (buf : list byte) (n : Z) (ss : list sysret) :
  forall sent, forallb (handler_event fd) (fst (fst (send_loop fd buf n sent ss))) = true.
Proof.
  induction ss as [|r ss IH]; intros sent; simpl.
  - destruct (sent <? n); simpl; [now rewrite Z.eqb_refl | reflexivity].
  - destruct (sent <? n); [|reflexivity].
    destruct (ret r <? 0); simpl; [now rewrite Z.eqb_refl|].
    specialize (IH (sent + ret r)).
    destruct (send_loop fd buf n (sent + ret r) ss) as [[t x] rest].
    simpl in *. now rewrite Z.eqb_refl.
Qed.

Lemma handle_loop_own (a : string) (p : Z) (rs : list recv_ret) :
  forall buf ss,
    forallb (handler_event fd) (fst (handle_loop fd a p buf rs ss)) = true.
Proof.
  assert (R : forall r, handler_event fd (EvRecv fd BUF_SZ r) = true)
    by (intros r; cbn [handler_event]; now rewrite !Z.eqb_refl).
  induction rs as [|r rs IH]; intros buf ss; cbn [handle_loop].
  - cbn [fst forallb]. now rewrite R.
  - destruct (0 <? rv_n r).
    + pose proof (send_loop_own (store buf BUF_SZ (rv_data r)) (rv_n r) ss 0) as H1.
      destruct (send_loop fd (store buf BUF_SZ (rv_data r)) (rv_n r) 0 ss)
        as [[t1 x1] ss1].
      cbn [fst] in H1. destruct x1.
      * specialize (IH (store buf BUF_SZ (rv_data r)) ss1).
        destruct (handle_loop fd a p _ rs ss1) as [t2 x2].
        cbn [fst forallb] in *. now rewrite R, forallb_app, H1, IH.
      * cbn [fst forallb]. now rewrite R, H1.
      * cbn [fst forallb]. now rewrite R, H1.
    + destruct (rv_n r =? 0); [cbn [fst forallb]; now rewrite R|].
      destruct (rv_errno r =? EINTR).
      * specialize (IH buf ss).
        destruct (handle_loop fd a p buf rs ss) as [t2 x2].
        cbn [fst forallb] in *. now rewrite R, IH.
      * cbn [fst forallb]. now rewrite R.
Qed.

End HandlerOwnership.

(** X3.  A handler works on its own connection only: every event of a
    run of [handle_client] is a log line or a call of [recv], [send] or
    [close] on the descriptor it was given, and every [recv] is given
    the whole buffer of 4096 bytes.  It never writes on the error
    stream and never touches another descriptor. *)
Theorem handler_own_descriptor {P : Platform} (fd : Z) (client_addr : sockaddr_in)
    (rs : list recv_ret) (ss : list sysret) :
  forallb (handler_event fd) (fst (handle_client fd client_addr rs ss)) = true.
Proof.
  unfold handle_client.
  pose proof (handle_loop_own fd (inet_ntop (sin_addr client_addr))
                (ntohs (sin_port client_addr)) rs
                (repeat x00 (Z.to_nat BUF_SZ)) ss) as H.
  destruct (handle_loop fd _ _ _ rs ss) as [t x].
  cbn [fst] in *. cbn [forallb handler_event].
  rewrite forallb_app, H. destruct x; cbn [after_loop forallb handler_event];
    now rewrite ?Z.eqb_refl.
Qed.

(** ** The sizes the handler asks [send] for *)

Lemma store_keeps_length (buf data : list byte) :
  List.length buf = Z.to_nat BUF_SZ ->
  List.length (store buf BUF_SZ data) = Z.to_nat BUF_SZ.
Proof.
  intros H. unfold store.
  rewrite length_app, length_skipn, length_firstn. lia.
Qed.

Lemma slice_within (buf : list byte) (off len : Z) :
  (List.length (slice buf off len) <= List.length buf)%nat.
Proof. unfold slice. rewrite length_firstn, length_skipn. lia. Qed.

(** In a trace that obeys the echo discipline no [send] is given an
    empty range. *)
Lemma discipline_sends_nonempty {P : Platform} (t : trace) :
  forall pending,
    echo_discipline pending t ->
    forall f d r, In (EvSend f d r) t -> d <> [].
Proof.
  induction t as [|e t IH]; intros pending H f d r Hin; [destruct Hin|].
  destruct Hin as [He|Hin].
  - subst e. cbn [echo_discipline] in H. destruct H as (Hne & -> & _). exact Hne.
  - destruct e; cbn [echo_discipline] in H;
      try (destruct H as [_ H]; exact (IH _ H f d r Hin)).
    destruct H as (_ & _ & H). destruct r0 as [r0|].
    + destruct (ret r0 <? 0).
      * subst t. destruct Hin as [E|[E|[]]]; discriminate E.
      * exact (IH _ H f d r Hin).
    + subst t. destruct Hin.
Qed.

Section HandlerSizes.
Context {P : Platform}.
Variable fd : Z.

Lemma send_loop_sizes (buf : list byte) (n : Z) (ss : list sysret) :
  forall sent f d r,
    In (EvSend f d r) (fst (fst (send_loop fd buf n sent ss))) ->
    (List.length d <= List.length buf)%nat.
Proof.
  induction ss as [|r0 ss IH]; intros sent f d r; simpl.
  - destruct (sent <? n); simpl; [|tauto].
    intros [E|[]]. inversion E; subst. apply slice_within.
  - destruct (sent <? n); [|simpl; tauto].
    destruct (ret r0 <? 0); simpl.
    + intros [E|[E|[E|[]]]]; try discriminate E.
      inversion E; subst. apply slice_within.
    + specialize (IH (sent + ret r0) f d r).
      destruct (send_loop fd buf n (sent + ret r0) ss) as [[t x] rest].
      simpl in *. intros [E|Hin]; [|exact (IH Hin)].
      inversion E; subst. apply slice_within.
Qed.

Lemma handle_loop_sizes (a : string) (p : Z) (rs : list recv_ret) :
  forall buf ss f d r,
    List.length buf = Z.to_nat BUF_SZ ->
    In (EvSend f d r) (fst (handle_loop fd a p buf rs ss)) ->
    (List.length d <= Z.to_nat BUF_SZ)%nat.
Proof.
  induction rs as [|r0 rs IH]; intros buf ss f d r Hb; cbn [handle_loop].
  - cbn [fst]. intros [E|[]]; discriminate E.
  - destruct (0 <? rv_n r0).
    + pose proof (store_keeps_length buf (rv_data r0) Hb) as Hb'.
      pose proof (send_loop_sizes (store buf BUF_SZ (rv_data r0)) (rv_n r0) ss 0 f d r) as H1.
      destruct (send_loop fd (store buf BUF_SZ (rv_data r0)) (rv_n r0) 0 ss)
        as [[t1 x1] ss1].
      cbn [fst] in H1. rewrite Hb' in H1. destruct x1.
      * specialize (IH (store buf BUF_SZ (rv_data r0)) ss1 f d r Hb').
        destruct (handle_loop fd a p _ rs ss1) as [t2 x2].
        cbn [fst] in *. intros [E|Hin]; [discriminate E|].
        apply in_app_or in Hin. destruct Hin as [Hin|Hin]; auto.
      * cbn [fst]. intros [E|Hin]; [discriminate E | auto].
      * cbn [fst]. intros [E|Hin]; [discriminate E | auto].
    + destruct (rv_n r0 =? 0).
      * cbn [fst]. intros [E|[E|[]]]; discriminate E.
      * destruct (rv_errno r0 =? EINTR).
        -- specialize (IH buf ss f d r Hb).
           destruct (handle_loop fd a p buf rs ss) as [t2 x2].
           cbn [fst] in *. intros [E|Hin]; [discriminate E | auto].
        -- cbn [fst]. intros [E|[E|[]]]; discriminate E.
Qed.

End HandlerSizes.

(** X4.  In a run of [handle_client] whose calls keep their contract
    every [send] is given at least one byte and at most 4096, the size
    of the buffer. *)
Theorem send_sizes {P : Platform} (fd : Z) (client_addr : sockaddr_in)
    (rs : list recv_ret) (ss : list sysret) (f : Z) (d : list byte)
    (r : option sysret) :
  kernel_ok (fst (handle_client fd client_addr rs ss)) = true ->
  In (EvSend f d r) (fst (handle_client fd client_addr rs ss)) ->
  0 < Z.of_nat (List.length d) <= BUF_SZ.
Proof.
  unfold handle_client.
  pose proof (handle_loop_sizes fd (inet_ntop (sin_addr client_addr))
                (ntohs (sin_port client_addr)) rs
                (repeat x00 (Z.to_nat BUF_SZ)) ss f d r
                (repeat_length x00 (Z.to_nat BUF_SZ))) as Hsz.
  destruct (handle_loop fd _ _ _ rs ss) as [t x] eqn:E.
  cbn [fst] in *. intros Hk Hin.
  change (kernel_ok (t ++ after_loop fd x) = true) in Hk.
  rewrite kernel_ok_app in Hk. apply andb_true_iff in Hk. destruct Hk as [Hk _].
  pose proof (handle_loop_discipline fd _ _ _ _ _ _ _ E Hk) as Hd.
  destruct Hin as [H|Hin]; [discriminate H|].
  pose proof (discipline_sends_nonempty _ _ Hd f d r Hin) as Hne.
  split.
  - destruct d; [now destruct Hne | cbn [List.length]; lia].
  - apply in_app_or in Hin. destruct Hin as [Hin|Hin].
    + specialize (Hsz Hin). unfold BUF_SZ in *. lia.
    + destruct x; simpl in Hin; intuition discriminate.
Qed.

(** ** The lines a connection logs *)

Section HandlerLogs.
Context {P : Platform}.
Variable fd : Z.

Lemma send_loop_logs (buf : list byte) (n : Z) (ss : list sysret) :
  forall sent t x rest,
    send_loop fd buf n sent ss = (t, x, rest) ->
    match x with
    | SendFailed =>
        exists e, filter is_log t = [EvLog ("Error in send(): " +:+ strerror e)]
    | _ => filter is_log t = []
    end.
Proof.
  induction ss as [|r ss IH]; intros sent t x rest; cbn [send_loop].
  - destruct (sent <? n); intros E; inversion E; reflexivity.
  - destruct (sent <? n); [|intros E; inversion E; reflexivity].
    destruct (ret r <? 0).
    + intros E; inversion E; subst. now exists (err r).
    + destruct (send_loop fd buf n (sent + ret r) ss) as [[t1 x1] r1] eqn:E1.
      intros E; inversion E; subst. exact (IH _ _ _ _ E1).
Qed.

Lemma handle_loop_logs (a : string) (p : Z) (rs : list recv_ret) :
  forall buf ss t x,
    handle_loop fd a p buf rs ss = (t, x) ->
    match x with
    | Blocked => filter is_log t = []
    | PeerClosed =>
        filter is_log t
        = [EvLog ("Client disconnected: " +:+ a +:+ ":" +:+ to_string p)]
    | RecvError =>
        exists e, filter is_log t = [EvLog ("Error in recv(): " +:+ strerror e)]
    | SendError =>
        exists e, filter is_log t = [EvLog ("Error in send(): " +:+ strerror e)]
    end.
Proof.
  induction rs as [|r rs IH]; intros buf ss t x; cbn [handle_loop].
  - intros E; inversion E; reflexivity.
  - destruct (0 <? rv_n r).
    + destruct (send_loop fd (store buf BUF_SZ (rv_data r)) (rv_n r) 0 ss)
        as [[t1 x1] ss1] eqn:E1.
      pose proof (send_loop_logs _ _ _ _ _ _ _ E1) as H1.
      destruct x1.
      * destruct (handle_loop fd a p _ rs ss1) as [t2 x2] eqn:E2.
        intros E; inversion E; subst. specialize (IH _ _ _ _ E2).
        cbn [filter is_log]. rewrite filter_app, H1. exact IH.
      * intros E; inversion E; subst. exact H1.
      * intros E; inversion E; subst. exact H1.
    + destruct (rv_n r =? 0); [intros E; inversion E; reflexivity|].
      destruct (rv_errno r =? EINTR).
      * destruct (handle_loop fd a p buf rs ss) as [t2 x2] eqn:E2.
        intros E; inversion E; subst. exact (IH _ _ _ _ E2).
      * intros E; inversion E; subst. now exists (rv_errno r).
Qed.

End HandlerLogs.

(** ** Interruptions by signals *)

Lemma filter_all {A : Type} (f : A -> bool) (l : list A) :
  forallb f l = true -> filter f l = l.
Proof.
  induction l as [|a l IH]; simpl; [reflexivity|].
  intros H. apply andb_true_iff in H. destruct H as [Ha Hl].
  now rewrite Ha, IH.
Qed.

Section Interruptions.
Context {P : Platform}.

Let calm (e : event) : bool := negb (interrupted e).

Lemma send_loop_calm (fd : Z) (buf : list byte) (n : Z) (ss : list sysret) :
  forall sent, forallb calm (fst (fst (send_loop fd buf n sent ss))) = true.
Proof.
  induction ss as [|r ss IH]; intros sent; cbn [send_loop].
  - destruct (sent <? n); reflexivity.
  - destruct (sent <? n); [|reflexivity].
    destruct (ret r <? 0); [reflexivity|].
    specialize (IH (sent + ret r)).
    destruct (send_loop fd buf n (sent + ret r) ss) as [[t x] rest].
    exact IH.
Qed.

Lemma handle_loop_calm (fd : Z) (a : string) (p : Z) (rs : list recv_ret) :
  forall buf ss,
    handle_loop fd a p buf (filter (fun r => negb (recv_interrupted r)) rs) ss
    = (filter calm (fst (handle_loop fd a p buf rs ss)),
       snd (handle_loop fd a p buf rs ss)).
Proof.
  induction rs as [|r rs IH]; intros buf ss; [reflexivity|].
  cbn [filter]. unfold recv_interrupted at 1.
  destruct (0 <? rv_n r) eqn:Hpos.
  - replace (rv_n r <? 0) with false
      by (symmetry; apply Z.ltb_ge; apply Z.ltb_lt in Hpos; lia).
    cbn [andb negb handle_loop]. rewrite Hpos.
    pose proof (send_loop_calm fd (store buf BUF_SZ (rv_data r)) (rv_n r) ss 0) as H1.
    destruct (send_loop fd (store buf BUF_SZ (rv_data r)) (rv_n r) 0 ss)
      as [[t1 x1] ss1].
    cbn [fst] in H1.
    assert (Hev : calm (EvRecv fd BUF_SZ (Some r)) = true).
    { unfold calm, interrupted, recv_interrupted.
      replace (rv_n r <? 0) with false
        by (symmetry; apply Z.ltb_ge; apply Z.ltb_lt in Hpos; lia).
      reflexivity. }
    destruct x1.
    + rewrite IH. destruct (handle_loop fd a p _ rs ss1) as [t2 x2].
      cbn [fst snd filter]. now rewrite Hev, filter_app, (filter_all _ _ H1).
    + cbn [fst snd filter]. now rewrite Hev, (filter_all _ _ H1).
    + cbn [fst snd filter]. now rewrite Hev, (filter_all _ _ H1).
  - destruct (rv_n r =? 0) eqn:Hz.
    + replace (rv_n r <? 0) with false
        by (symmetry; apply Z.ltb_ge; apply Z.eqb_eq in Hz; lia).
      cbn [andb negb handle_loop]. rewrite Hpos, Hz.
      cbn [fst snd filter]. unfold calm at 1, interrupted, recv_interrupted.
      replace (rv_n r <? 0) with false
        by (symmetry; apply Z.ltb_ge; apply Z.eqb_eq in Hz; lia).
      reflexivity.
    + replace (rv_n r <? 0) with true
        by (symmetry; apply Z.ltb_lt; apply Z.ltb_ge in Hpos;
            apply Z.eqb_neq in Hz; lia).
      destruct (rv_errno r =? EINTR) eqn:Hi.
      * cbn [andb negb]. rewrite IH. cbn [handle_loop]. rewrite Hpos, Hz, Hi.
        destruct (handle_loop fd a p buf rs ss) as [t2 x2].
        cbn [fst snd filter]. unfold calm at 2, interrupted, recv_interrupted.
        replace (rv_n r <? 0) with true
          by (symmetry; apply Z.ltb_lt; apply Z.ltb_ge in Hpos;
              apply Z.eqb_neq in Hz; lia).
        rewrite Hi. reflexivity.
      * cbn [andb negb handle_loop]. rewrite Hpos, Hz, Hi.
        cbn [fst snd filter]. unfold calm at 1, interrupted, recv_interrupted.
        rewrite Hi, andb_false_r. reflexivity.
Qed.

Lemma accept_loop_calm (listen_fd : Z) (acs : list accept_ret) :
  accept_loop listen_fd (filter (fun r => negb (accept_interrupted r)) acs)
  = (filter calm (fst (accept_loop listen_fd acs)),
     snd (accept_loop listen_fd acs)).
Proof.
  induction acs as [|r acs IH]; [reflexivity|].
  cbn [filter]. unfold accept_interrupted at 1.
  destruct (ac_fd r <? 0) eqn:Hneg.
  - destruct (ac_errno r =? EINTR) eqn:Hi.
    + cbn [andb negb]. rewrite IH. cbn [accept_loop]. rewrite Hneg, Hi.
      destruct (accept_loop listen_fd acs) as [t x].
      cbn [fst snd filter]. unfold calm at 2, interrupted, accept_interrupted.
      now rewrite Hneg, Hi.
    + cbn [andb negb accept_loop]. rewrite Hneg, Hi.
      cbn [fst snd filter]. unfold calm at 1, interrupted, accept_interrupted.
      now rewrite Hneg, Hi.
  - cbn [andb negb accept_loop]. rewrite Hneg.
    assert (Hev : calm (EvAccept listen_fd (Some r)) = true)
      by (unfold calm, interrupted, accept_interrupted; now rewrite Hneg).
    destruct (ac_thread r).
    + rewrite IH. destruct (accept_loop listen_fd acs) as [t x].
      cbn [fst snd filter]. now rewrite Hev.
    + cbn [fst snd filter]. now rewrite Hev.
Qed.

(** X6.  Interruptions of [recv] are invisible: a run in which some
    calls of [recv] were interrupted by a signal is, once the
    interrupted calls are erased from its trace, the run the handler
    makes on the same results without the interruptions; it leaves the
    handler the same way. *)
Theorem recv_interruptions_invisible (fd : Z) (client_addr : sockaddr_in)
    (rs : list recv_ret) (ss : list sysret) :
  handle_client fd client_addr (filter (fun r => negb (recv_interrupted r)) rs) ss
  = (filter (fun e => negb (interrupted e)) (fst (handle_client fd client_addr rs ss)),
     snd (handle_client fd client_addr rs ss)).
Proof.
  unfold handle_client. rewrite handle_loop_calm.
  destruct (handle_loop fd _ _ _ rs ss) as [t x].
  cbn [fst snd filter interrupted negb]. fold calm.
  rewrite filter_app. f_equal. f_equal. f_equal.
  destruct x; reflexivity.
Qed.

(** X7.  Interruptions of [accept] are invisible in the same way: the
    run of [main] with the interrupted calls erased is its run on the
    results without the interruptions, with the same end. *)
Theorem accept_interruptions_invisible (argv : list string) (boot : startup)
    (acs : list accept_ret) :
  main argv boot (filter (fun r => negb (accept_interrupted r)) acs)
  = (filter (fun e => negb (interrupted e)) (fst (main argv boot acs)),
     snd (main argv boot acs)).
Proof.
  unfold main. destruct (parse_port argv) as [port|]; [|reflexivity].
  destruct (ret (st_socket boot) <? 0); [reflexivity|].
  destruct (ret (st_setsockopt boot) <? 0); [reflexivity|].
  destruct (ret (st_bind boot) <? 0); [reflexivity|].
  destruct (ret (st_listen boot) <? 0); [reflexivity|].
  rewrite accept_loop_calm.
  destruct (accept_loop (ret (st_socket boot)) acs) as [t x].
  cbn [fst snd]. fold calm.
  destruct x; cbn [fst snd filter interrupted negb]; fold calm;
    rewrite ?filter_app; reflexivity.
Qed.

End Interruptions.

(** ** What [main] closes and writes *)

Section ListenerOutputs.
Context {P : Platform}.

Lemma accept_loop_outputs (listen_fd : Z) (acs : list accept_ret) :
  forall t x,
    accept_loop listen_fd acs = (t, x) ->
    filter is_close t = [] /\ filter is_log t = [] /\
    match x with
    | AcceptBroke =>
        exists r, In r acs /\ ac_fd r < 0 /\ ac_errno r <> EINTR
          /\ filter is_cerr t
             = [EvCerr ("accept() failed: " +:+ strerror (ac_errno r) +:+ newline)]
    | _ => filter is_cerr t = []
    end.
Proof.
  induction acs as [|r acs IH]; intros t x; cbn [accept_loop].
  - intros E; inversion E; subst. now repeat split.
  - destruct (ac_fd r <? 0) eqn:Hneg.
    + apply Z.ltb_lt in Hneg. destruct (ac_errno r =? EINTR) eqn:Hi.
      * destruct (accept_loop listen_fd acs) as [t1 x1].
        intros E; inversion E; subst.
        destruct (IH _ _ eq_refl) as (Hc & Hl & He).
        split; [exact Hc|]. split; [exact Hl|].
        destruct x; try exact He.
        destruct He as (r0 & Hin & H1 & H2 & H3).
        exists r0. repeat split; try assumption. now right.
      * apply Z.eqb_neq in Hi. intros E; inversion E; subst.
        split; [reflexivity|]. split; [reflexivity|].
        exists r. repeat split; try assumption. now left.
    + destruct (ac_thread r).
      * destruct (accept_loop listen_fd acs) as [t1 x1].
        intros E; inversion E; subst.
        destruct (IH _ _ eq_refl) as (Hc & Hl & He).
        split; [exact Hc|]. split; [exact Hl|].
        destruct x; try exact He.
        destruct He as (r0 & Hin & H1 & H2 & H3).
        exists r0. repeat split; try assumption. now right.
      * intros E; inversion E; subst. now repeat split.
Qed.

Lemma accept_loop_threw (listen_fd : Z) (acs : list accept_ret) :
  forall t,
    accept_loop listen_fd acs = (t, AcceptThrew) ->
    exists t0 r,
      t = t0 ++ [EvAccept listen_fd (Some r); EvThreadFailed]
      /\ 0 <= ac_fd r /\ ac_thread r = false.
Proof.
  induction acs as [|r acs IH]; intros t; cbn [accept_loop].
  - intros E; discriminate E.
  - destruct (ac_fd r <? 0) eqn:Hneg.
    + destruct (ac_errno r =? EINTR); [|intros E; discriminate E].
      destruct (accept_loop listen_fd acs) as [t1 x1].
      intros E; inversion E; subst.
      destruct (IH _ eq_refl) as (t0 & r0 & -> & H1 & H2).
      now exists (EvAccept listen_fd (Some r) :: t0), r0.
    + apply Z.ltb_ge in Hneg. destruct (ac_thread r) eqn:Ht.
      * destruct (accept_loop listen_fd acs) as [t1 x1].
        intros E; inversion E; subst.
        destruct (IH _ eq_refl) as (t0 & r0 & -> & H1 & H2).
        now exists (EvAccept listen_fd (Some r) :: EvSpawn (ac_fd r) (ac_addr r) :: t0), r0.
      * intros E; inversion E; subst. now exists [], r.
Qed.

Variables (argv : list string) (boot : startup) (acs : list accept_ret).

(** X8.  [main] closes no descriptor but the listening socket, and
    closes it exactly once when it returns after [socket] succeeded;
    it closes nothing when [socket] itself failed, while it is still
    accepting, or when the process is terminated by an exception.  It
    never closes the descriptor of an accepted connection. *)
Theorem listener_closes :
  filter is_close (fst (main argv boot acs))
  = match snd (main argv boot acs) with
    | Exited _ =>
        if ret (st_socket boot) <? 0 then []
        else [EvClose (ret (st_socket boot))]
    | _ => []
    end.
Proof.
  unfold main. destruct (parse_port argv) as [port|]; [|reflexivity].
  destruct (ret (st_socket boot) <? 0) eqn:H1; [reflexivity|].
  destruct (ret (st_setsockopt boot) <? 0); [reflexivity|].
  destruct (ret (st_bind boot) <? 0); [reflexivity|].
  destruct (ret (st_listen boot) <? 0); [reflexivity|].
  destruct (accept_loop (ret (st_socket boot)) acs) as [t x] eqn:E.
  destruct (accept_loop_outputs _ _ _ _ E) as (Hc & _ & _).
  destruct x; cbn [fst snd filter is_close]; rewrite ?filter_app, Hc;
    reflexivity.
Qed.

(** X10.  [main] writes on the error stream exactly when it returns,
    and then one line: with code 1 the line names the first setup call
    that failed and describes its [errno]; with code 0 it describes the
    [errno] of a failed [accept] that was not an interruption.  While
    accepting, or terminated by an exception, it has written none. *)
Theorem listener_error_lines :
  match snd (main argv boot acs) with
  | Exited c =>
      exists line,
        filter is_cerr (fst (main argv boot acs)) = [EvCerr line]
        /\ (c = 1 ->
            exists name e,
              first_failure boot = Some (name, e)
              /\ line = name +:+ "() failed: " +:+ strerror e +:+ newline)
        /\ (c = 0 ->
            exists r,
              In r acs /\ ac_fd r < 0 /\ ac_errno r <> EINTR
              /\ line = "accept() failed: " +:+ strerror (ac_errno r) +:+ newline)
  | _ => filter is_cerr (fst (main argv boot acs)) = []
  end.
Proof.
  unfold main, first_failure. destruct (parse_port argv) as [port|]; [|reflexivity].
  destruct (ret (st_socket boot) <? 0).
  { cbn [fst snd filter is_cerr]. eexists. split; [reflexivity|].
    split; [intros _; now eexists _, _ | discriminate]. }
  destruct (ret (st_setsockopt boot) <? 0).
  { cbn [fst snd filter is_cerr]. eexists. split; [reflexivity|].
    split; [intros _; now eexists _, _ | discriminate]. }
  destruct (ret (st_bind boot) <? 0).
  { cbn [fst snd filter is_cerr]. eexists. split; [reflexivity|].
    split; [intros _; now eexists _, _ | discriminate]. }
  destruct (ret (st_listen boot) <? 0).
  { cbn [fst snd filter is_cerr]. eexists. split; [reflexivity|].
    split; [intros _; now eexists _, _ | discriminate]. }
  destruct (accept_loop (ret (st_socket boot)) acs) as [t x] eqn:E.
  destruct (accept_loop_outputs _ _ _ _ E) as (_ & _ & He).
  destruct x; cbn [fst snd filter is_cerr]; try exact He.
  destruct He as (r & Hin & H1 & H2 & H3).
  eexists. rewrite filter_app, H3. split; [reflexivity|].
  split; [discriminate|]. intros _. now exists r.
Qed.

(** X11.  The only line [main] logs is "Listening on port N", with N
    the port it parsed (8080 without an argument); it logs it once,
    when the four setup calls succeeded, and never otherwise. *)
Theorem listener_log_lines :
  filter is_log (fst (main argv boot acs))
  = match parse_port argv with
    | Some port =>
        if startup_failed boot then []
        else [EvLog ("Listening on port " +:+ to_string port)]
    | None => []
    end.
Proof.
  unfold main, startup_failed. destruct (parse_port argv) as [port|]; [|reflexivity].
  destruct (ret (st_socket boot) <? 0); [reflexivity|].
  destruct (ret (st_setsockopt boot) <? 0); [reflexivity|].
  destruct (ret (st_bind boot) <? 0); [reflexivity|].
  destruct (ret (st_listen boot) <? 0); [reflexivity|].
  destruct (accept_loop (ret (st_socket boot)) acs) as [t x] eqn:E.
  destruct (accept_loop_outputs _ _ _ _ E) as (_ & Hl & _).
  destruct x; cbn [fst snd filter is_log orb]; rewrite ?filter_app, Hl; reflexivity.
Qed.

(** X13.  [main] is terminated by an exception in two cases only: when
    [std::stoi] rejects the port argument, and then before any system
    call; or when a thread cannot be created for a connection [accept]
    just returned, and then right after that [accept], with neither
    descriptor closed. *)
Theorem listener_terminated :
  (parse_port argv = None -> main argv boot acs = ([], Terminated)) /\
  (snd (main argv boot acs) = Terminated ->
     parse_port argv = None \/
     exists t0 r,
       fst (main argv boot acs)
       = t0 ++ [EvAccept (ret (st_socket boot)) (Some r); EvThreadFailed]
       /\ 0 <= ac_fd r /\ ac_thread r = false
       /\ filter is_close (fst (main argv boot acs)) = []).
Proof.
  split.
  - intros H. unfold main. now rewrite H.
  - unfold main. destruct (parse_port argv) as [port|]; [|now left].
    destruct (ret (st_socket boot) <? 0); [discriminate|].
    destruct (ret (st_setsockopt boot) <? 0); [discriminate|].
    destruct (ret (st_bind boot) <? 0); [discriminate|].
    destruct (ret (st_listen boot) <? 0); [discriminate|].
    destruct (accept_loop (ret (st_socket boot)) acs) as [t x] eqn:E.
    destruct (accept_loop_outputs _ _ _ _ E) as (Hc & _ & _).
    destruct x; cbn [fst snd]; try discriminate. intros _. right.
    destruct (accept_loop_threw _ _ _ E) as (t0 & r & Ht & H1 & H2).
    exists (EvSocket (st_socket boot)
              :: EvSetsockopt (ret (st_socket boot)) (st_setsockopt boot)
              :: EvBind (ret (st_socket boot)) (htons port) (st_bind boot)
              :: EvListen (ret (st_socket boot)) (st_listen boot)
              :: EvLog ("Listening on port " +:+ to_string port) :: t0), r.
    split; [rewrite Ht; reflexivity|]. split; [exact H1|]. split; [exact H2|].
    cbn [filter is_close]. exact Hc.
Qed.

End ListenerOutputs.

(** ** Connections and their handlers *)

Lemma each_suffix_impl (Q1 Q2 : event -> trace -> Prop) (t : trace) :
  (forall e post, Q1 e post -> Q2 e post) ->
  each_suffix Q1 t -> each_suffix Q2 t.
Proof.
  intros H. induction t as [|e t IH]; simpl; [trivial|].
  intros [He Ht]. split; [now apply H | now apply IH].
Qed.

(** A proof rule for the traces of the accept loop, as for the handler. *)
Section ListenerRule.
Context {P : Platform}.
Variable listen_fd : Z.
Variable Q : accept_exit -> event -> trace -> Prop.

Hypothesis Q_pending : Q AcceptPending (EvAccept listen_fd None) [].
Hypothesis Q_interrupted : forall x r r' post,
  ac_fd r < 0 -> ac_errno r = EINTR ->
  Q x (EvAccept listen_fd (Some r)) (EvAccept listen_fd r' :: post).
Hypothesis Q_fatal : forall r,
  ac_fd r < 0 -> ac_errno r <> EINTR ->
  Q AcceptBroke (EvAccept listen_fd (Some r))
    [EvCerr ("accept() failed: " +:+ strerror (ac_errno r) +:+ newline);
     EvClose listen_fd].
Hypothesis Q_cerr : forall s, Q AcceptBroke (EvCerr s) [EvClose listen_fd].
Hypothesis Q_close : Q AcceptBroke (EvClose listen_fd) [].
Hypothesis Q_accepted : forall x r post,
  0 <= ac_fd r -> ac_thread r = true ->
  Q x (EvAccept listen_fd (Some r)) (EvSpawn (ac_fd r) (ac_addr r) :: post).
Hypothesis Q_spawn : forall x f a r' post,
  Q x (EvSpawn f a) (EvAccept listen_fd r' :: post).
Hypothesis Q_threw : forall r,
  0 <= ac_fd r -> ac_thread r = false ->
  Q AcceptThrew (EvAccept listen_fd (Some r)) [EvThreadFailed].
Hypothesis Q_thread_failed : Q AcceptThrew EvThreadFailed [].

Lemma accept_loop_rule (acs : list accept_ret) :
  forall t x,
    accept_loop listen_fd acs = (t, x) ->
    each_suffix (Q x)
      (t ++ match x with AcceptBroke => [EvClose listen_fd] | _ => [] end).
Proof.
  induction acs as [|r acs IH]; intros t x; cbn [accept_loop].
  - intros E; inversion E; subst. simpl. auto.
  - destruct (accept_loop_head listen_fd acs) as (r' & post & Hh).
    destruct (ac_fd r <? 0) eqn:Hneg.
    + apply Z.ltb_lt in Hneg. destruct (ac_errno r =? EINTR) eqn:Hi.
      * apply Z.eqb_eq in Hi.
        destruct (accept_loop listen_fd acs) as [t1 x1] eqn:E1.
        intros E; inversion E; subst. cbn [fst] in Hh. subst t1.
        cbn [app each_suffix]. split; [now apply Q_interrupted|].
        now apply (IH _ _ eq_refl).
      * apply Z.eqb_neq in Hi. intros E; inversion E; subst.
        cbn [app each_suffix]. split; [now apply Q_fatal|].
        split; [apply Q_cerr|]. split; [apply Q_close | exact I].
    + apply Z.ltb_ge in Hneg. destruct (ac_thread r) eqn:Ht.
      * destruct (accept_loop listen_fd acs) as [t1 x1] eqn:E1.
        intros E; inversion E; subst. cbn [fst] in Hh. subst t1.
        cbn [app each_suffix]. split; [now apply Q_accepted|].
        split; [apply Q_spawn|]. now apply (IH _ _ eq_refl).
      * intros E; inversion E; subst.
        cbn [app each_suffix]. split; [now apply Q_threw|].
        split; [apply Q_thread_failed | exact I].
Qed.

End ListenerRule.

Section Dispatch.
Context {P : Platform}.
Variables (argv : list string) (boot : startup) (acs : list accept_ret).

(** The event before a hand-over is the [accept] that returned the
    connection. *)
Let handed (e : event) (post : trace) : Prop :=
  forall f a post',
    post = EvSpawn f a :: post' ->
    exists r,
      e = EvAccept (ret (st_socket boot)) (Some r)
      /\ ac_fd r = f /\ ac_addr r = a /\ 0 <= f.

(** What follows an [accept] that returned a connection. *)
Let served (ended : Prop) (e : event) (post : trace) : Prop :=
  forall fd r,
    e = EvAccept fd (Some r) -> 0 <= ac_fd r ->
    (ac_thread r = true -> exists post', post = EvSpawn (ac_fd r) (ac_addr r) :: post') /\
    (ac_thread r = false -> post = [EvThreadFailed] /\ ended).

Lemma main_handed : each_suffix handed (fst (main argv boot acs)).
Proof.
  assert (N : forall e e' post,
              (forall f a, e' <> EvSpawn f a) -> handed e (e' :: post)).
  { intros e e' post H f a post' E. inversion E; subst. now destruct (H f a). }
  assert (Z0 : forall e, handed e []) by (intros e f a post' E; discriminate E).
  unfold main. destruct (parse_port argv) as [port|]; [|exact I].
  destruct (ret (st_socket boot) <? 0);
    [cbn [fst each_suffix];
     repeat (split; [first [apply Z0 | apply N; discriminate]|]); exact I|].
  destruct (ret (st_setsockopt boot) <? 0);
    [cbn [fst each_suffix];
     repeat (split; [first [apply Z0 | apply N; discriminate]|]); exact I|].
  destruct (ret (st_bind boot) <? 0);
    [cbn [fst each_suffix];
     repeat (split; [first [apply Z0 | apply N; discriminate]|]); exact I|].
  destruct (ret (st_listen boot) <? 0);
    [cbn [fst each_suffix];
     repeat (split; [first [apply Z0 | apply N; discriminate]|]); exact I|].
  destruct (accept_loop_head (ret (st_socket boot)) acs) as (r' & post & Hh).
  destruct (accept_loop (ret (st_socket boot)) acs) as [t x] eqn:E.
  cbn [fst] in Hh.
  assert (R : each_suffix handed
                (t ++ match x with
                      | AcceptBroke => [EvClose (ret (st_socket boot))]
                      | _ => []
                      end)).
  { refine (accept_loop_rule (ret (st_socket boot)) (fun _ => handed)
              _ _ _ _ _ _ _ _ _ acs t x E);
      try (unfold handed; intros;
           match goal with H : _ = EvSpawn _ _ :: _ |- _ => discriminate H end).
    intros _ r post0 H0 _ f a post' H. inversion H; subst. now exists r. }
  assert (G : each_suffix handed
                (EvSocket (st_socket boot)
                 :: EvSetsockopt (ret (st_socket boot)) (st_setsockopt boot)
                 :: EvBind (ret (st_socket boot)) (htons port) (st_bind boot)
                 :: EvListen (ret (st_socket boot)) (st_listen boot)
                 :: EvLog ("Listening on port " +:+ to_string port)
                 :: t ++ match x with
                         | AcceptBroke => [EvClose (ret (st_socket boot))]
                         | _ => []
                         end)).
  { cbn [each_suffix].
    do 4 (split; [apply N; discriminate|]).
    split; [|exact R]. subst t. apply N. discriminate. }
  destruct x; cbn [fst]; rewrite ?app_nil_r in G; exact G.
Qed.

Lemma main_served :
  each_suffix (served (snd (main argv boot acs) = Terminated))
    (fst (main argv boot acs)).
Proof.
  assert (N : forall ended e, is_accept e = false -> forall post, served ended e post).
  { intros ended e He post fd r H. subst e. discriminate He. }
  unfold main. destruct (parse_port argv) as [port|]; [|exact I].
  destruct (ret (st_socket boot) <? 0);
    [cbn [fst each_suffix]; repeat (split; [now apply N|]); exact I|].
  destruct (ret (st_setsockopt boot) <? 0);
    [cbn [fst each_suffix]; repeat (split; [now apply N|]); exact I|].
  destruct (ret (st_bind boot) <? 0);
    [cbn [fst each_suffix]; repeat (split; [now apply N|]); exact I|].
  destruct (ret (st_listen boot) <? 0);
    [cbn [fst each_suffix]; repeat (split; [now apply N|]); exact I|].
  destruct (accept_loop (ret (st_socket boot)) acs) as [t x] eqn:E.
  assert (R : each_suffix (served (x = AcceptThrew))
                (t ++ match x with
                      | AcceptBroke => [EvClose (ret (st_socket boot))]
                      | _ => []
                      end)).
  { refine (accept_loop_rule (ret (st_socket boot))
              (fun x => served (x = AcceptThrew))
              _ _ _ _ _ _ _ _ _ acs t x E);
      try (intros; now apply N).
    - intros fd r H; discriminate H.
    - intros x0 r r' post0 Hn _ fd r0 H H0. inversion H; subst. lia.
    - intros r Hn _ fd r0 H H0. inversion H; subst. lia.
    - intros x0 r post0 H0 Ht fd r0 H _. inversion H; subst.
      split; [intros _; now eexists | congruence].
    - intros r H0 Ht fd r0 H _. inversion H; subst.
      split; [congruence | now split]. }
  destruct x; cbn [fst snd each_suffix]; (repeat (split; [now apply N|]));
    rewrite ?app_nil_r in R;
    (eapply each_suffix_impl; [|exact R]);
    intros e post0 H fd r He H0; destruct (H fd r He H0) as [Ha Hb];
    (split; [exact Ha|]); intros Hf; destruct (Hb Hf) as [Hp Hx];
    (split; [exact Hp|]); try discriminate Hx; reflexivity.
Qed.

(** X9.  A handler is started only for a connection [accept] has just
    returned: in a run of [main] the event before every hand-over to a
    [handle_client] thread is the [accept] on the listening socket that
    returned that descriptor, which is not negative, and the thread is
    given the address that [accept] stored. *)
Theorem spawn_follows_accept (pre post : trace) (f : Z) (a : sockaddr_in) :
  fst (main argv boot acs) = pre ++ EvSpawn f a :: post ->
  exists pre' r,
    pre = pre' ++ [EvAccept (ret (st_socket boot)) (Some r)]
    /\ ac_fd r = f /\ ac_addr r = a /\ 0 <= f.
Proof.
  intros E. destruct (exists_last (l := pre)) as (pre' & e & ->).
  - intros ->. revert E. unfold main.
    destruct (parse_port argv); [|discriminate].
    destruct (ret (st_socket boot) <? 0); [discriminate|].
    destruct (ret (st_setsockopt boot) <? 0); [discriminate|].
    destruct (ret (st_bind boot) <? 0); [discriminate|].
    destruct (ret (st_listen boot) <? 0); [discriminate|].
    destruct (accept_loop (ret (st_socket boot)) acs) as [t []]; discriminate.
  - rewrite <- app_assoc in E. cbn [app] in E.
    pose proof (proj1 (each_suffix_split _ _) main_handed pre' e _ E) as H.
    destruct (H f a post eq_refl) as (r & -> & H1 & H2 & H3).
    now exists pre', r.
Qed.

(** X14.  Every connection [accept] returns gets its handler: the next
    event is the hand-over of that descriptor and address to a new
    thread; unless the thread cannot be created, and then nothing
    follows and the process is terminated. *)
Theorem accept_gets_handler (pre post : trace) (fd : Z) (r : accept_ret) :
  fst (main argv boot acs) = pre ++ EvAccept fd (Some r) :: post ->
  0 <= ac_fd r ->
  (ac_thread r = true -> exists post', post = EvSpawn (ac_fd r) (ac_addr r) :: post') /\
  (ac_thread r = false ->
     post = [EvThreadFailed] /\ snd (main argv boot acs) = Terminated).
Proof.
  intros E H0.
  exact (proj1 (each_suffix_split _ _) main_served pre _ post E fd r eq_refl H0).
Qed.

End Dispatch.

(** ** Progress of the echo *)

Lemma send_count_app (t t' : trace) :
  send_count (t ++ t') = (send_count t + send_count t')%nat.
Proof. unfold send_count. now rewrite filter_app, length_app. Qed.

Section EchoProgress.
Context {P : Platform}.
Variable fd : Z.

Lemma send_loop_receives_nothing (buf : list byte) (n : Z) (ss : list sysret) :
  forall sent, bytes_received (fst (fst (send_loop fd buf n sent ss))) = [].
Proof.
  induction ss as [|r ss IH]; intros sent; cbn [send_loop].
  - destruct (sent <? n); reflexivity.
  - destruct (sent <? n); [|reflexivity].
    destruct (ret r <? 0); [reflexivity|].
    specialize (IH (sent + ret r)).
    destruct (send_loop fd buf n (sent + ret r) ss) as [[t x] rest].
    exact IH.
Qed.

(** When every [send] takes at least one byte the write loop ends by
    its condition, after at most [n - sent] calls, each of which used
    one of the results. *)
Lemma send_loop_progress (buf : list byte) (n : Z) (ss : list sysret) :
  forall sent,
    (forall r, In r ss -> 0 < ret r) ->
    n - sent <= Z.of_nat (List.length ss) ->
    exists t k rest,
      send_loop fd buf n sent ss = (t, SendDone k, rest)
      /\ (forall r, In r rest -> 0 < ret r)
      /\ Z.of_nat (List.length ss) - Z.max 0 (n - sent) <= Z.of_nat (List.length rest)
      /\ Z.of_nat (send_count t) <= Z.max 0 (n - sent).
Proof.
  induction ss as [|r ss IH]; intros sent Hpos Hlen; cbn [send_loop].
  - cbn [List.length] in Hlen.
    replace (sent <? n) with false by (symmetry; apply Z.ltb_ge; lia).
    eexists _, _, _. split; [reflexivity|]. split; [exact Hpos|].
    split; [simpl; lia | unfold send_count; simpl; lia].
  - destruct (sent <? n) eqn:Hlt.
    + apply Z.ltb_lt in Hlt.
      assert (Hr : 0 < ret r) by (apply Hpos; now left).
      replace (ret r <? 0) with false by (symmetry; apply Z.ltb_ge; lia).
      cbn [List.length] in Hlen.
      destruct (IH (sent + ret r)) as (t & k & rest & E & Hrest & Hb & Hc);
        [intros r' Hr'; apply Hpos; now right | lia |].
      rewrite E. eexists _, _, _. split; [reflexivity|].
      split; [exact Hrest|]. split; [cbn [List.length]; lia|].
      unfold send_count in *. cbn [filter is_send List.length]. lia.
    + apply Z.ltb_ge in Hlt.
      eexists _, _, _. split; [reflexivity|]. split; [exact Hpos|].
      split; [lia | unfold send_count; simpl; lia].
Qed.

Lemma handle_loop_progress (a : string) (p : Z) (cs : list (list byte)) :
  Forall (fun c => 0 < Z.of_nat (List.length c) <= BUF_SZ) cs ->
  forall buf ss,
    (forall r, In r ss -> 0 < ret r) ->
    total_length cs <= Z.of_nat (List.length ss) ->
    snd (handle_loop fd a p buf (map data_chunk cs ++ [recv_eof]) ss) = PeerClosed
    /\ bytes_received (fst (handle_loop fd a p buf (map data_chunk cs ++ [recv_eof]) ss))
       = List.concat cs
    /\ Z.of_nat (send_count
                   (fst (handle_loop fd a p buf (map data_chunk cs ++ [recv_eof]) ss)))
       <= total_length cs.
Proof.
  induction 1 as [|c cs [Hc1 Hc2] Hcs IH]; intros buf ss Hpos Hlen.
  - repeat split. unfold total_length, send_count. simpl. lia.
  - cbn [map app handle_loop].
    change (rv_n (data_chunk c)) with (Z.of_nat (List.length c)).
    change (rv_data (data_chunk c)) with c.
    rewrite (proj2 (Z.ltb_lt _ _) Hc1).
    assert (Ht : total_length (c :: cs) = Z.of_nat (List.length c) + total_length cs).
    { unfold total_length. cbn [List.concat]. rewrite length_app. lia. }
    rewrite Ht in *.
    assert (Hcs0 : 0 <= total_length cs) by (unfold total_length; lia).
    pose proof (send_loop_receives_nothing (store buf BUF_SZ c)
                  (Z.of_nat (List.length c)) ss 0) as Hnone.
    destruct (send_loop_progress (store buf BUF_SZ c) (Z.of_nat (List.length c)) ss 0 Hpos)
      as (t1 & k & rest & E & Hrest & Hb & Hc); [lia|].
    rewrite E in *. cbn [fst] in Hnone.
    destruct (IH (store buf BUF_SZ c) rest Hrest) as (Hx & Hr & Hn); [lia|].
    destruct (handle_loop fd a p (store buf BUF_SZ c)
                (map data_chunk cs ++ [recv_eof]) rest) as [t2 x2].
    cbn [fst snd] in *. split; [exact Hx|]. split.
    + unfold bytes_received in *. cbn [flat_map received].
      change (rv_n (data_chunk c)) with (Z.of_nat (List.length c)).
      change (rv_data (data_chunk c)) with c.
      rewrite (proj2 (Z.ltb_lt _ _) Hc1), Nat2Z.id, firstn_all.
      rewrite flat_map_app, Hnone, Hr. reflexivity.
    + change (Z.of_nat (send_count (t1 ++ t2))
              <= Z.of_nat (List.length c) + total_length cs).
      rewrite send_count_app. lia.
Qed.

End EchoProgress.

(** X2.  The echo makes progress: when the peer sends chunks of 1 to
    4096 bytes and then closes, and every [send] keeps its contract and
    takes at least one byte, the handler is never stuck in the write
    loop: given as many [send] results as there are bytes it receives
    every chunk, reaches the close of the peer having written the
    chunks in order, and has called [send] at most once per byte. *)
Theorem echo_progress {P : Platform} (fd : Z) (client_addr : sockaddr_in)
    (cs : list (list byte)) (ss : list sysret) :
  Forall (fun c => 0 < Z.of_nat (List.length c) <= BUF_SZ) cs ->
  (forall r, In r ss -> 0 < ret r) ->
  total_length cs <= Z.of_nat (List.length ss) ->
  kernel_ok (fst (handle_client fd client_addr (map data_chunk cs ++ [recv_eof]) ss)) = true ->
  snd (handle_client fd client_addr (map data_chunk cs ++ [recv_eof]) ss) = PeerClosed
  /\ bytes_received (fst (handle_client fd client_addr (map data_chunk cs ++ [recv_eof]) ss))
     = List.concat cs
  /\ bytes_written (fst (handle_client fd client_addr (map data_chunk cs ++ [recv_eof]) ss))
     = List.concat cs
  /\ Z.of_nat (send_count
                 (fst (handle_client fd client_addr (map data_chunk cs ++ [recv_eof]) ss)))
     <= total_length cs.
Proof.
  intros Hcs Hpos Hlen. unfold handle_client.
  destruct (handle_loop_progress fd (inet_ntop (sin_addr client_addr))
              (ntohs (sin_port client_addr)) cs Hcs
              (repeat x00 (Z.to_nat BUF_SZ)) ss Hpos Hlen) as (Hx & Hr & Hn).
  destruct (handle_loop fd _ _ _ (map data_chunk cs ++ [recv_eof]) ss)
    as [t x] eqn:E.
  cbn [fst snd] in *. subst x. intros Hk. split; [reflexivity|].
  assert (Hr' : bytes_received (t ++ after_loop fd PeerClosed) = List.concat cs)
    by (rewrite bytes_received_app, Hr; apply app_nil_r).
  split; [exact Hr'|].
  change (kernel_ok (t ++ after_loop fd PeerClosed) = true) in Hk.
  rewrite kernel_ok_app in Hk. apply andb_true_iff in Hk. destruct Hk as [Hk _].
  destruct (handle_loop_bytes fd _ _ _ _ _ _ _ E Hk) as [_ Heq].
  split.
  - change (bytes_written (t ++ after_loop fd PeerClosed) = List.concat cs).
    rewrite bytes_written_app, (Heq (or_introl eq_refl)), Hr. apply app_nil_r.
  - change (Z.of_nat (send_count (t ++ after_loop fd PeerClosed)) <= total_length cs).
    rewrite send_count_app. cbn [after_loop]. unfold send_count at 2.
    cbn [filter is_send List.length]. lia.
Qed.

(** ** The message in a log line *)

Lemma length_append (s q : string) :
  String.length (s +:+ q) = (String.length s + String.length q)%nat.
Proof. induction s as [|c s IH]; simpl; [reflexivity | now rewrite IH]. Qed.

Lemma substring_front (s q : string) :
  substring 0 (String.length s) (s +:+ q) = s.
Proof.
  induction s as [|c s IH]; simpl; [now destruct q | now rewrite IH].
Qed.

(** X12.  The message can be read back from the line [log] writes: for
    a time [std::localtime] can give, the line is a stamp of 22
    characters, the message unchanged, and a newline. *)
Theorem log_message_recoverable (now : tm) (s : string) :
  tm_ok now = true ->
  String.length (log now s) = (23 + String.length s)%nat
  /\ substring 22 (String.length s) (log now s) = s
  /\ substring (22 + String.length s) 1 (log now s) = newline.
Proof.
  unfold tm_ok. intros H.
  repeat (apply andb_true_iff in H; destruct H as [H ?]).
  assert (Hy : 1000 <= tm_year now + 1900 <= 9999)
    by (split; apply Z.leb_le; assumption).
  apply fmt_Y_four, four_digits_inv in Hy.
  destruct Hy as (a & b & c & d & Hy & _).
  unfold log, put_time_F_T. rewrite Hy. unfold pad2.
  cbn -[digit newline String.length substring].
  split; [|split].
  - cbn [String.length]. rewrite length_append. cbn [String.length newline]. lia.
  - cbn [substring]. apply substring_front.
  - cbn [substring Nat.add].
    induction s as [|c0 s IH]; [reflexivity | exact IH].
Qed.

(** ** Why a handler ends *)

Section HandlerEnds.
Context {P : Platform}.
Variable fd : Z.

Lemma send_loop_last (buf : list byte) (n : Z) (ss : list sysret) :
  forall sent t x rest,
    send_loop fd buf n sent ss = (t, x, rest) ->
    match x with
    | SendDone _ => True
    | SendFailed =>
        exists t0 d r,
          t = t0 ++ [EvSend fd d (Some r);
                     EvLog ("Error in send(): " +:+ strerror (err r)); EvClose fd]
          /\ ret r < 0
    | SendPending _ => exists t0 d, t = t0 ++ [EvSend fd d None]
    end.
Proof.
  induction ss as [|r ss IH]; intros sent t x rest; cbn [send_loop].
  - destruct (sent <? n); intros E; inversion E; subst; [|exact I].
    now exists [], (slice buf sent (n - sent)).
  - destruct (sent <? n); [|intros E; inversion E; exact I].
    destruct (ret r <? 0) eqn:Hr.
    + apply Z.ltb_lt in Hr. intros E; inversion E; subst.
      now exists [], (slice buf sent (n - sent)), r.
    + destruct (send_loop fd buf n (sent + ret r) ss) as [[t1 x1] r1] eqn:E1.
      intros E; inversion E; subst. specialize (IH _ _ _ _ E1).
      destruct x; [exact I | |].
      * destruct IH as (t0 & d & r0 & -> & H0).
        now exists (EvSend fd (slice buf sent (n - sent)) (Some r) :: t0), d, r0.
      * destruct IH as (t0 & d & ->).
        now exists (EvSend fd (slice buf sent (n - sent)) (Some r) :: t0), d.
Qed.

Lemma handle_loop_last (a : string) (p : Z) (rs : list recv_ret) :
  forall buf ss t x,
    handle_loop fd a p buf rs ss = (t, x) ->
    match x with
    | PeerClosed =>
        exists t0 r,
          t = t0 ++ [EvRecv fd BUF_SZ (Some r);
                     EvLog ("Client disconnected: " +:+ a +:+ ":" +:+ to_string p)]
          /\ rv_n r = 0
    | RecvError =>
        exists t0 r,
          t = t0 ++ [EvRecv fd BUF_SZ (Some r);
                     EvLog ("Error in recv(): " +:+ strerror (rv_errno r))]
          /\ rv_n r < 0 /\ rv_errno r <> EINTR
    | SendError =>
        exists t0 d r,
          t = t0 ++ [EvSend fd d (Some r);
                     EvLog ("Error in send(): " +:+ strerror (err r)); EvClose fd]
          /\ ret r < 0
    | Blocked =>
        exists t0,
          t = t0 ++ [EvRecv fd BUF_SZ None] \/ exists d, t = t0 ++ [EvSend fd d None]
    end.
Proof.
  induction rs as [|r rs IH]; intros buf ss t x; cbn [handle_loop].
  - intros E; inversion E; subst. exists []. now left.
  - destruct (0 <? rv_n r) eqn:Hpos.
    + destruct (send_loop fd (store buf BUF_SZ (rv_data r)) (rv_n r) 0 ss)
        as [[t1 x1] ss1] eqn:E1.
      pose proof (send_loop_last _ _ _ _ _ _ _ E1) as H1.
      destruct x1.
      * destruct (handle_loop fd a p _ rs ss1) as [t2 x2] eqn:E2.
        intros E; inversion E; subst. specialize (IH _ _ _ _ E2).
        destruct x.
        -- destruct IH as (t0 & r0 & -> & H0).
           exists (EvRecv fd BUF_SZ (Some r) :: t1 ++ t0), r0.
           split; [cbn [app]; now rewrite app_assoc | exact H0].
        -- destruct IH as (t0 & r0 & -> & H0).
           exists (EvRecv fd BUF_SZ (Some r) :: t1 ++ t0), r0.
           split; [cbn [app]; now rewrite app_assoc | exact H0].
        -- destruct IH as (t0 & d & r0 & -> & H0).
           exists (EvRecv fd BUF_SZ (Some r) :: t1 ++ t0), d, r0.
           split; [cbn [app]; now rewrite app_assoc | exact H0].
        -- destruct IH as (t0 & [-> | (d & ->)]);
             exists (EvRecv fd BUF_SZ (Some r) :: t1 ++ t0);
             [left | right; exists d]; cbn [app]; now rewrite app_assoc.
      * intros E; inversion E; subst.
        destruct H1 as (t0 & d & r0 & -> & H0).
        now exists (EvRecv fd BUF_SZ (Some r) :: t0), d, r0.
      * intros E; inversion E; subst.
        destruct H1 as (t0 & d & ->).
        exists (EvRecv fd BUF_SZ (Some r) :: t0). right. now exists d.
    + apply Z.ltb_ge in Hpos. destruct (rv_n r =? 0) eqn:Hz.
      * apply Z.eqb_eq in Hz. intros E; inversion E; subst. now exists [], r.
      * apply Z.eqb_neq in Hz. destruct (rv_errno r =? EINTR) eqn:Hi.
        -- destruct (handle_loop fd a p buf rs ss) as [t2 x2] eqn:E2.
           intros E; inversion E; subst. specialize (IH _ _ _ _ E2).
           destruct x.
           ++ destruct IH as (t0 & r0 & -> & H0).
              now exists (EvRecv fd BUF_SZ (Some r) :: t0), r0.
           ++ destruct IH as (t0 & r0 & -> & H0).
              now exists (EvRecv fd BUF_SZ (Some r) :: t0), r0.
           ++ destruct IH as (t0 & d & r0 & -> & H0).
              now exists (EvRecv fd BUF_SZ (Some r) :: t0), d, r0.
           ++ destruct IH as (t0 & [-> | (d & ->)]);
                exists (EvRecv fd BUF_SZ (Some r) :: t0);
                [now left | right; now exists d].
        -- apply Z.eqb_neq in Hi. intros E; inversion E; subst.
           exists [], r. split; [reflexivity|]. split; [lia | exact Hi].
Qed.

End HandlerEnds.

(** X5.  The lines a connection logs: one line, "Connected: ip:port",
    while the handler runs, and exactly one more when it has left: the
    disconnect line with the same address after the close of the peer,
    or the line of the error that ended it, which describes the [errno]
    of the failed [recv] or [send] that is the last call of the run. *)
Theorem handler_log_lines {P : Platform} (fd : Z) (client_addr : sockaddr_in)
    (rs : list recv_ret) (ss : list sysret) :
  exists last,
    filter is_log (fst (handle_client fd client_addr rs ss))
    = EvLog ("Connected: " +:+ inet_ntop (sin_addr client_addr) +:+ ":"
               +:+ to_string (ntohs (sin_port client_addr))) :: last
    /\ match snd (handle_client fd client_addr rs ss) with
       | Blocked => last = []
       | PeerClosed =>
           last = [EvLog ("Client disconnected: " +:+ inet_ntop (sin_addr client_addr)
                            +:+ ":" +:+ to_string (ntohs (sin_port client_addr)))]
       | RecvError =>
           exists t0 r,
             fst (handle_client fd client_addr rs ss)
             = t0 ++ [EvRecv fd BUF_SZ (Some r);
                      EvLog ("Error in recv(): " +:+ strerror (rv_errno r));
                      EvClose fd]
             /\ rv_n r < 0 /\ rv_errno r <> EINTR
             /\ last = [EvLog ("Error in recv(): " +:+ strerror (rv_errno r))]
       | SendError =>
           exists t0 d r,
             fst (handle_client fd client_addr rs ss)
             = t0 ++ [EvSend fd d (Some r);
                      EvLog ("Error in send(): " +:+ strerror (err r));
                      EvClose fd]
             /\ ret r < 0
             /\ last = [EvLog ("Error in send(): " +:+ strerror (err r))]
       end.
Proof.
  assert (U : forall (l : list event) (a b : event),
              l ++ [a] = [b] -> l = []).
  { intros [|x [|y l]] a b H; [reflexivity | discriminate H | discriminate H]. }
  unfold handle_client.
  destruct (handle_loop fd _ _ _ rs ss) as [t x] eqn:E.
  pose proof (handle_loop_logs fd _ _ _ _ _ _ _ E) as H.
  pose proof (handle_loop_last fd _ _ _ _ _ _ _ E) as L.
  cbn [fst snd]. exists (filter is_log t). split.
  - cbn [filter is_log]. rewrite filter_app.
    destruct x; cbn [after_loop filter is_log]; now rewrite app_nil_r.
  - destruct x; try exact H.
    + destruct L as (t0 & r & -> & Hn & He). destruct H as (e & H).
      rewrite filter_app in H. cbn [filter is_log] in H.
      pose proof (U _ _ _ H) as H0.
      exists (EvLog ("Connected: " +:+ inet_ntop (sin_addr client_addr) +:+ ":"
                       +:+ to_string (ntohs (sin_port client_addr))) :: t0), r.
      split; [cbn [after_loop app]; now rewrite <- app_assoc|].
      split; [exact Hn|]. split; [exact He|].
      rewrite filter_app, H0. reflexivity.
    + destruct L as (t0 & d & r & -> & Hn). destruct H as (e & H).
      rewrite filter_app in H. cbn [filter is_log] in H.
      pose proof (U _ _ _ H) as H0.
      exists (EvLog ("Connected: " +:+ inet_ntop (sin_addr client_addr) +:+ ":"
                       +:+ to_string (ntohs (sin_port client_addr))) :: t0), d, r.
      split; [cbn [after_loop app]; now rewrite app_nil_r|].
      split; [exact Hn|].
      rewrite filter_app, H0. reflexivity.
Qed.

(** X15.  A handler ends for a reason, and its last events tell which:
    it leaves only after a [recv] that returned 0, a [recv] that failed
    with an [errno] other than [EINTR], or a [send] that failed, each
    followed by its log line and the close; otherwise it is inside a
    call of [recv] or [send].  There is no other way out: no timeout,
    no limit on the bytes echoed. *)
Theorem handler_ends_for_a_reason {P : Platform} (fd : Z)
    (client_addr : sockaddr_in) (rs : list recv_ret) (ss : list sysret) :
  match snd (handle_client fd client_addr rs ss) with
  | PeerClosed =>
      exists t0 r,
        fst (handle_client fd client_addr rs ss)
        = t0 ++ [EvRecv fd BUF_SZ (Some r);
                 EvLog ("Client disconnected: " +:+ inet_ntop (sin_addr client_addr)
                          +:+ ":" +:+ to_string (ntohs (sin_port client_addr)));
                 EvClose fd]
        /\ rv_n r = 0
  | RecvError =>
      exists t0 r,
        fst (handle_client fd client_addr rs ss)
        = t0 ++ [EvRecv fd BUF_SZ (Some r);
                 EvLog ("Error in recv(): " +:+ strerror (rv_errno r)); EvClose fd]
        /\ rv_n r < 0 /\ rv_errno r <> EINTR
  | SendError =>
      exists t0 d r,
        fst (handle_client fd client_addr rs ss)
        = t0 ++ [EvSend fd d (Some r);
                 EvLog ("Error in send(): " +:+ strerror (err r)); EvClose fd]
        /\ ret r < 0
  | Blocked =>
      exists t0,
        fst (handle_client fd client_addr rs ss) = t0 ++ [EvRecv fd BUF_SZ None]
        \/ exists d, fst (handle_client fd client_addr rs ss) = t0 ++ [EvSend fd d None]
  end.
Proof.
  unfold handle_client.
  destruct (handle_loop fd _ _ _ rs ss) as [t x] eqn:E.
  pose proof (handle_loop_last fd _ _ _ _ _ _ _ E) as H.
  cbn [fst snd]. destruct x; cbn [after_loop].
  - destruct H as (t0 & r & -> & H0).
    eexists (_ :: t0), r. split; [|exact H0].
    cbn [app]. now rewrite <- app_assoc.
  - destruct H as (t0 & r & -> & H0).
    eexists (_ :: t0), r. split; [|exact H0].
    cbn [app]. now rewrite <- app_assoc.
  - destruct H as (t0 & d & r & -> & H0).
    eexists (_ :: t0), d, r. split; [|exact H0].
    cbn [app]. now rewrite app_nil_r.
  - destruct H as (t0 & [-> | (d & ->)]); eexists (_ :: t0);
      [left | right; exists d]; cbn [app]; now rewrite app_nil_r.
Qed.

(** ** The further properties at the sample runs *)

Lemma echo_completes_witness :
  Forall (fun c => 0 < Z.of_nat (List.length c) <= BUF_SZ)
    [bytes_of "hello"; bytes_of "world"]
  /\ bytes_written
       (fst (@handle_client Linux.platform 7 peer
               (map data_chunk [bytes_of "hello"; bytes_of "world"] ++ [recv_eof])
               (map whole [bytes_of "hello"; bytes_of "world"])))
     = bytes_of "helloworld".
Proof.
  assert (F : Forall (fun c => 0 < Z.of_nat (List.length c) <= BUF_SZ)
                [bytes_of "hello"; bytes_of "world"])
    by (repeat constructor; vm_compute; congruence).
  split; [exact F|].
  exact (proj2 (proj2 (@echo_completes Linux.platform 7 peer
                         [bytes_of "hello"; bytes_of "world"] F))).
Defined.

Lemma echo_progress_witness :
  Forall (fun c => 0 < Z.of_nat (List.length c) <= BUF_SZ)
    [bytes_of "hello"; bytes_of "world"]
  /\ kernel_ok
       (fst (@handle_client Linux.platform 7 peer
               (map data_chunk [bytes_of "hello"; bytes_of "world"] ++ [recv_eof])
               ([took 2; took 3; took 4] ++ repeat (took 1) 7))) = true
  /\ snd (@handle_client Linux.platform 7 peer
            (map data_chunk [bytes_of "hello"; bytes_of "world"] ++ [recv_eof])
            ([took 2; took 3; took 4] ++ repeat (took 1) 7))
     = PeerClosed.
Proof.
  assert (F : Forall (fun c => 0 < Z.of_nat (List.length c) <= BUF_SZ)
                [bytes_of "hello"; bytes_of "world"])
    by (repeat constructor; vm_compute; congruence).
  assert (K : kernel_ok
                (fst (@handle_client Linux.platform 7 peer
                        (map data_chunk [bytes_of "hello"; bytes_of "world"] ++ [recv_eof])
                        ([took 2; took 3; took 4] ++ repeat (took 1) 7))) = true)
    by (vm_compute; reflexivity).
  split; [exact F|]. split; [exact K|].
  refine (proj1 (@echo_progress Linux.platform 7 peer
                   [bytes_of "hello"; bytes_of "world"]
                   ([took 2; took 3; took 4] ++ repeat (took 1) 7) F _ _ K)).
  - intros r Hin. simpl in Hin.
    repeat (destruct Hin as [<-|Hin]; [reflexivity|]). destruct Hin.
  - vm_compute. discriminate.
Defined.

Lemma send_sizes_witness :
  (kernel_ok (fst hello_run) = true
   /\ In (EvSend 7 (bytes_of "llo") (Some (took 3))) (fst hello_run))
  /\ 0 < Z.of_nat (List.length (bytes_of "llo")) <= BUF_SZ.
Proof.
  assert (K : kernel_ok (fst hello_run) = true) by (vm_compute; reflexivity).
  assert (I0 : In (EvSend 7 (bytes_of "llo") (Some (took 3))) (fst hello_run))
    by (vm_compute; tauto).
  split; [now split|].
  exact (@send_sizes Linux.platform 7 peer hello_rs hello_ss 7
           (bytes_of "llo") (Some (took 3)) K I0).
Defined.

Lemma spawn_follows_accept_witness :
  exists pre' r,
    [EvSocket (took 3); EvSetsockopt 3 (took 0); EvBind 3 10275 (took 0);
     EvListen 3 (took 0); EvLog "Listening on port 9000";
     EvAccept 3 (Some (accept_fail EINTR)); EvAccept 3 (Some (accepted 7))]
    = pre' ++ [EvAccept 3 (Some r)]
    /\ ac_fd r = 7 /\ ac_addr r = peer /\ 0 <= 7.
Proof.
  refine (@spawn_follows_accept Linux.platform ["server"; "9000"] boot_ok
            [accept_fail EINTR; accepted 7; accept_fail 24; accepted 8]
            _ [EvAccept 3 (Some (accept_fail 24));
               EvCerr ("accept() failed: Too many open files" +:+ newline);
               EvClose 3] 7 peer _).
  vm_compute. reflexivity.
Defined.

Lemma accept_gets_handler_witness :
  snd (@main Linux.platform ["server"] boot_ok [accepted 7; accept_no_thread 8; accepted 9])
  = Terminated.
Proof.
  refine (proj2 (proj2 (@accept_gets_handler Linux.platform ["server"] boot_ok
            [accepted 7; accept_no_thread 8; accepted 9]
            [EvSocket (took 3); EvSetsockopt 3 (took 0); EvBind 3 36895 (took 0);
             EvListen 3 (took 0); EvLog "Listening on port 8080";
             EvAccept 3 (Some (accepted 7)); EvSpawn 7 peer]
            [EvThreadFailed] 3 (accept_no_thread 8) _ _) _)).
  - vm_compute. reflexivity.
  - vm_compute. discriminate.
  - reflexivity.
Defined.

Lemma log_message_recoverable_witness :
  tm_ok noon = true
  /\ substring 22 (String.length "Connected: 127.0.0.1:5000")
       (log noon "Connected: 127.0.0.1:5000")
     = "Connected: 127.0.0.1:5000".
Proof.
  assert (T : tm_ok noon = true) by (vm_compute; reflexivity).
  split; [exact T|].
  exact (proj1 (proj2 (log_message_recoverable noon "Connected: 127.0.0.1:5000" T))).
Defined.

(** * The echo, call by call *)

(** ** The results a run consumes *)

Lemma send_results_app (t t' : trace) :
  send_results (t ++ t') = send_results t ++ send_results t'.
Proof. apply flat_map_app. Qed.

Lemma recv_results_app (t t' : trace) :
  recv_results (t ++ t') = recv_results t ++ recv_results t'.
Proof. apply flat_map_app. Qed.

Lemma in_send_app (t t' : trace) : in_send (t ++ t') = in_send t || in_send t'.
Proof. apply existsb_app. Qed.

Lemma in_recv_app (t t' : trace) : in_recv (t ++ t') = in_recv t || in_recv t'.
Proof. apply existsb_app. Qed.

Section Consumption.
Context {P : Platform}.
Variable fd : Z.

(** The write loop gives every [send] the next result of the script,
    makes no [recv], and is inside a [send] that has not returned only
    when the script has run out. *)
Lemma send_loop_consumes (buf : list byte) (n : Z) (ss : list sysret) :
  forall sent t x rest,
    send_loop fd buf n sent ss = (t, x, rest) ->
    ss = send_results t ++ rest
    /\ recv_results t = [] /\ in_recv t = false
    /\ match x with
       | SendPending _ => rest = [] /\ in_send t = true
       | SendFailed => in_send t = false
                       /\ exists sr r, send_results t = sr ++ [r] /\ ret r < 0
       | SendDone _ => in_send t = false
       end.
Proof.
  induction ss as [|r ss IH]; intros sent t x rest; cbn [send_loop].
  - destruct (sent <? n); intros E; inversion E; subst; now repeat split.
  - destruct (sent <? n); [|intros E; inversion E; subst; now repeat split].
    destruct (ret r <? 0) eqn:Hr.
    + apply Z.ltb_lt in Hr. intros E; inversion E; subst.
      repeat split. now exists [], r.
    + destruct (send_loop fd buf n (sent + ret r) ss) as [[t1 x1] r1] eqn:E1.
      intros E; inversion E; subst.
      destruct (IH _ _ _ _ E1) as (Hs & Hrr & Hir & Hx).
      split; [cbn [send_results flat_map app]; fold (send_results t1); now rewrite Hs at 1|].
      split; [exact Hrr|]. split; [exact Hir|].
      destruct x; cbn [in_send existsb orb]; fold (in_send t1); try exact Hx.
      destruct Hx as (Hi & sr & r0 & Hsr & Hneg). split; [exact Hi|].
      exists (r :: sr), r0. split; [|exact Hneg].
      cbn [send_results flat_map app]. fold (send_results t1). now rewrite Hsr.
Qed.

Lemma handle_loop_consumes (a : string) (p : Z) (rs : list recv_ret) :
  forall buf ss t x,
    handle_loop fd a p buf rs ss = (t, x) ->
    (exists rest, ss = send_results t ++ rest /\ (in_send t = true -> rest = [])) /\
    (exists rest, rs = recv_results t ++ rest /\ (in_recv t = true -> rest = [])) /\
    match x with
    | Blocked => in_send t || in_recv t = true
    | PeerClosed => exists rr r, recv_results t = rr ++ [r] /\ rv_n r = 0
    | RecvError =>
        exists rr r, recv_results t = rr ++ [r] /\ rv_n r < 0 /\ rv_errno r <> EINTR
    | SendError => exists sr r, send_results t = sr ++ [r] /\ ret r < 0
    end.
Proof.
  induction rs as [|r rs IH]; intros buf ss t x; cbn [handle_loop].
  - intros E; injection E as <- <-. split; [|split].
    + exists ss. split; [reflexivity | discriminate].
    + now exists [].
    + reflexivity.
  - destruct (0 <? rv_n r) eqn:Hpos.
    + destruct (send_loop fd (store buf BUF_SZ (rv_data r)) (rv_n r) 0 ss)
        as [[t1 x1] ss1] eqn:E1.
      destruct (send_loop_consumes _ _ _ _ _ _ _ E1) as (Hs & Hrr & Hir & Hx).
      destruct x1.
      * destruct (handle_loop fd a p _ rs ss1) as [t2 x2] eqn:E2.
        intros E; injection E as <- <-.
        destruct (IH _ _ _ _ E2) as ((rest & Hs2 & Hw) & (rest' & Hr2 & Hw') & Hend).
        assert (Sr : send_results (EvRecv fd BUF_SZ (Some r) :: t1 ++ t2)
                     = send_results t1 ++ send_results t2)
          by apply (send_results_app t1 t2).
        assert (Rr : recv_results (EvRecv fd BUF_SZ (Some r) :: t1 ++ t2)
                     = r :: recv_results t2).
        { change (r :: recv_results (t1 ++ t2) = r :: recv_results t2).
          now rewrite recv_results_app, Hrr. }
        assert (Is : in_send (EvRecv fd BUF_SZ (Some r) :: t1 ++ t2) = in_send t2).
        { change (in_send (t1 ++ t2) = in_send t2). now rewrite in_send_app, Hx. }
        assert (Ir : in_recv (EvRecv fd BUF_SZ (Some r) :: t1 ++ t2) = in_recv t2).
        { change (in_recv (t1 ++ t2) = in_recv t2). now rewrite in_recv_app, Hir. }
        rewrite Sr, Rr, Is, Ir. split; [|split].
        -- exists rest. split; [|exact Hw]. rewrite <- app_assoc, <- Hs2. exact Hs.
        -- exists rest'. split; [|exact Hw']. cbn [app]. now rewrite <- Hr2.
        -- destruct x2; try exact Hend.
           ++ destruct Hend as (rr & r0 & -> & H0). now exists (r :: rr), r0.
           ++ destruct Hend as (rr & r0 & -> & H0). now exists (r :: rr), r0.
           ++ destruct Hend as (sr & r0 & -> & H0).
              exists (send_results t1 ++ sr), r0. now rewrite app_assoc.
      * intros E; injection E as <- <-. destruct Hx as (Hi & sr & r0 & Hsr & Hneg).
        split; [|split].
        -- exists ss1. split; [exact Hs|].
           change (in_send t1 = true -> ss1 = []). rewrite Hi. discriminate.
        -- exists rs. split.
           ++ change (r :: rs = (r :: recv_results t1) ++ rs). now rewrite Hrr.
           ++ change (in_recv t1 = true -> rs = []). rewrite Hir. discriminate.
        -- exists sr, r0. split; [exact Hsr | exact Hneg].
      * intros E; injection E as <- <-. destruct Hx as (-> & Hi).
        split; [|split].
        -- exists []. split; [exact Hs | reflexivity].
        -- exists rs. split.
           ++ change (r :: rs = (r :: recv_results t1) ++ rs). now rewrite Hrr.
           ++ change (in_recv t1 = true -> rs = []). rewrite Hir. discriminate.
        -- change (in_send t1 || in_recv t1 = true). now rewrite Hi.
    + apply Z.ltb_ge in Hpos. destruct (rv_n r =? 0) eqn:Hz.
      * apply Z.eqb_eq in Hz. intros E; injection E as <- <-. split; [|split].
        -- exists ss. split; [reflexivity | discriminate].
        -- exists rs. split; [reflexivity | discriminate].
        -- now exists [], r.
      * apply Z.eqb_neq in Hz. destruct (rv_errno r =? EINTR) eqn:Hi.
        -- destruct (handle_loop fd a p buf rs ss) as [t2 x2] eqn:E2.
           intros E; injection E as <- <-.
           destruct (IH _ _ _ _ E2) as ((rest & Hs2 & Hw) & (rest' & Hr2 & Hw') & Hend).
           split; [|split].
           ++ exists rest. split; [exact Hs2 | exact Hw].
           ++ exists rest'. split; [|exact Hw'].
              change (r :: rs = r :: recv_results t2 ++ rest'). now rewrite <- Hr2.
           ++ destruct x2; try exact Hend.
              ** destruct Hend as (rr & r0 & Hrr & H0). exists (r :: rr), r0.
                 split; [|exact H0].
                 change (r :: recv_results t2 = r :: rr ++ [r0]). now rewrite Hrr.
              ** destruct Hend as (rr & r0 & Hrr & H0). exists (r :: rr), r0.
                 split; [|exact H0].
                 change (r :: recv_results t2 = r :: rr ++ [r0]). now rewrite Hrr.
        -- apply Z.eqb_neq in Hi. intros E; injection E as <- <-. split; [|split].
           ++ exists ss. split; [reflexivity | discriminate].
           ++ exists rs. split; [reflexivity | discriminate].
           ++ exists [], r. split; [reflexivity|]. split; [lia | exact Hi].
Qed.

End Consumption.

(** ** A script of results that suffices *)



Section Supply.
Context {P : Platform}.
Variable fd : Z.



End Supply.

(** ** The echo of a whole run *)

(** The line that opens a run and the close that ends it are no
    [recv] and no [send]. *)
Lemma handler_frame {P : Platform} (m : string) (fd : Z) (x : exit_path) (t : trace) :
  send_results (EvLog m :: t ++ after_loop fd x) = send_results t
  /\ recv_results (EvLog m :: t ++ after_loop fd x) = recv_results t
  /\ in_send (EvLog m :: t ++ after_loop fd x) = in_send t
  /\ in_recv (EvLog m :: t ++ after_loop fd x) = in_recv t.
Proof.
  change (send_results (t ++ after_loop fd x) = send_results t
          /\ recv_results (t ++ after_loop fd x) = recv_results t
          /\ in_send (t ++ after_loop fd x) = in_send t
          /\ in_recv (t ++ after_loop fd x) = in_recv t).
  rewrite send_results_app, recv_results_app, in_send_app, in_recv_app.
  destruct x; cbn; rewrite !app_nil_r, !orb_false_r; now repeat split.
Qed.

Section EchoClaims.
Context {P : Platform}.
Variables (fd : Z) (client_addr : sockaddr_in).
Variables (rs : list recv_ret) (ss : list sysret).

Let run := handle_client fd client_addr rs ss.


(** C2, partial-write completion.  In a run whose calls keep their
    contract the trace obeys the echo discipline: after a chunk of
    [n > 0] bytes every [send] offers exactly the bytes of the chunk
    not yet taken, so the offset advances by what each call returned;
    while bytes remain the next event is another [send], never a
    [recv]; and the only other way out of the write loop is a failed
    [send], followed by its log line and the close.  The further calls
    are made: the [send] calls of the run return the results of the
    script in order, and a [send] that has not returned is in the run
    only when every result of the script has been used, so a short
    write with a result left is followed by the [send] that gets it;
    likewise for [recv].  And the run stops only inside a call, at the
    close of the peer, or at the error of a call. *)
Theorem partial_write_completion :
  kernel_ok (fst run) = true ->
  echo_discipline [] (fst run)
  /\ (exists rest, ss = send_results (fst run) ++ rest
                   /\ (in_send (fst run) = true -> rest = []))
  /\ (exists rest, rs = recv_results (fst run) ++ rest
                   /\ (in_recv (fst run) = true -> rest = []))
  /\ match snd run with
     | Blocked => in_send (fst run) || in_recv (fst run) = true
     | PeerClosed => exists rr r, recv_results (fst run) = rr ++ [r] /\ rv_n r = 0
     | RecvError =>
         exists rr r, recv_results (fst run) = rr ++ [r]
                      /\ rv_n r < 0 /\ rv_errno r <> EINTR
     | SendError => exists sr r, send_results (fst run) = sr ++ [r] /\ ret r < 0
     end.
Proof.
  subst run. unfold handle_client.
  destruct (handle_loop fd _ _ _ rs ss) as [t x] eqn:E. cbn [fst snd].
  intros Hk. change (kernel_ok (t ++ after_loop fd x) = true) in Hk.
  rewrite kernel_ok_app in Hk. apply andb_true_iff in Hk.
  destruct Hk as [Hk _].
  destruct (handler_frame ("Connected: "
              +:+ inet_ntop (sin_addr client_addr) +:+ ":"
              +:+ to_string (ntohs (sin_port client_addr))) fd x t)
    as (Fs & Fr & Fis & Fir).
  rewrite Fs, Fr, Fis, Fir.
  destruct (handle_loop_consumes fd _ _ _ _ _ _ _ E) as (Hs & Hr & Hend).
  split; [|split; [exact Hs | split; [exact Hr | exact Hend]]].
  split; [reflexivity|].
  eapply handle_loop_discipline; eassumption.
Qed.

End EchoClaims.

(** ** The echo at the sample run *)


Lemma partial_write_completion_witness :
  kernel_ok (fst hello_run) = true
  /\ @echo_discipline Linux.platform [] (fst hello_run)
  /\ send_results (fst hello_run) = hello_ss
  /\ recv_results (fst hello_run) = hello_rs.
Proof.
  assert (K : kernel_ok (fst hello_run) = true) by (vm_compute; reflexivity).
  split; [exact K|].
  split; [exact (proj1 (@partial_write_completion Linux.platform 7 peer
                          hello_rs hello_ss K))|].
  split; vm_compute; reflexivity.
Defined.
